(** * PsychoJS core: EventManager and Window

    A shallow embedding of [src/js/core/EventManager.js] (keyboard buffer,
    key-name tables, mouse listeners) and of the [Window] class (log queue,
    flip callback, render loop), with the properties of the design document
    stated and settled against the code.

    Conventions of the embedding.
    - A JavaScript object used as a dictionary is a [gmap]; a property read
      [o[k]] is the lookup [o !! k], [undefined] being [None].  The tables
      of [EventManager] are read by their own properties, which is what the
      code reads for every name that is not the name of a member of
      [Object.prototype]; [Prototype] has the reads of those names.
    - JavaScript numbers that carry times and coordinates are rationals
      ([Q]) where the program has doubles: the statements about them name
      the operations that the code performs, in the order in which it
      performs them, and use no law of arithmetic.  Counters and key codes
      are integers, which the doubles hold exactly below 2^53.
    - Calls into collaborators that are not part of these two files (the
      PIXI renderer and container, the logger, the flip callback, the
      stimuli) are recorded as events of a trace, in call order.
    - Clock readings are inputs of the handler that reads them. *)

From stdpp Require Import gmap strings list fin_maps.
From Stdlib Require Import Ascii QArith.
Close Scope Q_scope.
Open Scope string_scope.
Open Scope list_scope.

(** ** JavaScript objects, arrays and completions *)

Module Js.

(** An object literal [{k1: v1, k2: v2, ...}]: properties are defined in
    source order, a repeated key keeps the last value. *)
Definition object_literal {K V} `{Countable K} (l : list (K * V)) : gmap K V :=
  foldl (λ m kv, <[kv.1 := kv.2]> m) ∅ l.

(** Decimal value of a string of digits. *)
Definition digit_value (a : ascii) : option N :=
  let n := N_of_ascii a in
  if ((48 <=? n) && (n <=? 57))%N then Some (n - 48)%N else None.

Fixpoint digits_value (acc : N) (s : string) : option N :=
  match s with
  | EmptyString => Some acc
  | String a s' =>
      match digit_value a with
      | Some d => digits_value (10 * acc + d)%N s'
      | None => None
      end
  end.

(** [array_index s] is [Some n] when the property key [s] is an array
    index: the canonical decimal numeral of an integer below 2^32 - 1. *)
Definition array_index (s : string) : option N :=
  match s with
  | EmptyString => None
  | String "0"%char EmptyString => Some 0%N
  | String "0"%char _ => None
  | _ =>
      match digits_value 0 s with
      | Some n => if (n <? 4294967295)%N then Some n else None
      | None => None
      end
  end.

Fixpoint insert_sorted (x : N * string) (l : list (N * string)) : list (N * string) :=
  match l with
  | [] => [x]
  | y :: l' => if (x.1 <=? y.1)%N then x :: l else y :: insert_sorted x l'
  end.

Definition sort_indices (l : list (N * string)) : list (N * string) :=
  foldr insert_sorted [] l.

(** Keys of a literal, each once, in order of first definition. *)
Fixpoint creation_order (seen : list string) (l : list string) : list string :=
  match l with
  | [] => []
  | k :: l' =>
      if bool_decide (k ∈ seen) then creation_order seen l'
      else k :: creation_order (k :: seen) l'
  end.

(** The order in which [for (var k in o)] visits the own properties of an
    object built from the literal [l]: array indices in ascending numeric
    order first, then the other keys in creation order. *)
Definition for_in {V} (l : list (string * V)) : list string :=
  let ks := creation_order [] (l.*1) in
  (sort_indices (omap (λ k, (λ n, (n, k)) <$> array_index k) ks)).*2
  ++ filter (λ k, array_index k = None) ks.

(** [a.indexOf(x)]: position of the first element equal to [x], or -1.
    The searched value may be [undefined] ([None]), which no element of
    an array of strings equals. *)
Fixpoint indexOf_from (i : Z) (a : list string) (x : string) : Z :=
  match a with
  | [] => (-1)%Z
  | y :: a' => if bool_decide (y = x) then i else indexOf_from (i + 1)%Z a' x
  end.

Definition indexOf (a : list string) (x : option string) : Z :=
  match x with
  | Some s => indexOf_from 0 a s
  | None => (-1)%Z
  end.

(** [a[i]] for an integer [i]. *)
Definition at_index {A} (a : list A) (i : Z) : option A :=
  if (i <? 0)%Z then None else a !! Z.to_nat i.

(** [a[i] = v] on an array with holes: in range the slot is overwritten,
    beyond the end the array is extended and the gap is left empty. *)
Definition array_set {A} (i : nat) (v : A) (a : list (option A)) : list (option A) :=
  if (i <? length a)%nat then <[i := Some v]> a
  else a ++ replicate (i - length a) None ++ [Some v].

(** How a listener or method ends: normally, or by an uncaught
    [TypeError], in either case leaving a state behind. *)
Inductive Completion (S : Type) : Type :=
| Done (s : S)
| Threw (s : S).
Global Arguments Done {S} s.
Global Arguments Threw {S} s.

Definition state_of {S} (c : Completion S) : S :=
  match c with Done s | Threw s => s end.

Definition and_then {S} (c : Completion S) (k : S → Completion S) : Completion S :=
  match c with Done s => k s | Threw s => Threw s end.

End Js.

(** ** EventManager *)

Module EventManager.

(** [EventManager._keycodeMap]: deprecated numeric key codes to W3C codes. *)
Definition _keycodeMap_literal : list (Z * string) :=
  [ (49, "Digit1"); (50, "Digit2"); (51, "Digit3"); (52, "Digit4");
    (53, "Digit5"); (54, "Digit6"); (55, "Digit7"); (56, "Digit8");
    (57, "Digit9"); (48, "Digit0");
    (65, "KeyA"); (66, "KeyB"); (67, "KeyC"); (68, "KeyD"); (69, "KeyE");
    (70, "KeyF"); (71, "KeyG"); (72, "KeyH"); (73, "KeyI"); (74, "KeyJ");
    (75, "KeyK"); (76, "KeyL"); (77, "KeyM"); (78, "KeyN"); (79, "KeyO");
    (80, "KeyP"); (81, "KeyQ"); (82, "KeyR"); (83, "KeyS"); (84, "KeyT");
    (85, "KeyU"); (86, "KeyV"); (87, "KeyW"); (88, "KeyX"); (89, "KeyY");
    (90, "KeyZ");
    (188, "Comma"); (190, "Period"); (186, "Semicolon"); (222, "Quote");
    (219, "BracketLeft"); (221, "BracketRight"); (192, "Backquote");
    (220, "Backslash"); (189, "Minus"); (187, "Equal");
    (144, "NumLock");
    (96, "Numpad0"); (97, "Numpad1"); (98, "Numpad2"); (99, "Numpad3");
    (100, "Numpad4"); (101, "Numpad5"); (102, "Numpad6"); (103, "Numpad7");
    (104, "Numpad8"); (105, "Numpad9");
    (107, "NumpadAdd"); (194, "NumpadComma"); (194, "NumpadComma");
    (110, "NumpadDecimal"); (110, "NumpadDecimal"); (111, "NumpadDivide");
    (13, "NumpadEnter"); (12, "NumpadEqual"); (106, "NumpadMultiply");
    (109, "NumpadSubtract");
    (37, "ArrowLeft"); (38, "ArrowUp"); (39, "ArrowRight"); (40, "ArrowDown");
    (27, "Escape"); (32, "Space") ]%Z.

Definition _keycodeMap : gmap Z string := Js.object_literal _keycodeMap_literal.

(** [EventManager._pygletMap]: pyglet key names to W3C codes. *)
Definition _pygletMap_literal : list (string * string) :=
  [ (* writing system keys *)
    ("grave", "Backquote"); ("backslash", "Backslash");
    ("backspace", "Backspace"); ("bracketleft", "BracketLeft");
    ("bracketright", "BracketRight"); ("comma", "Comma");
    ("0", "Digit0"); ("1", "Digit1"); ("2", "Digit2"); ("3", "Digit3");
    ("4", "Digit4"); ("5", "Digit5"); ("6", "Digit6"); ("7", "Digit7");
    ("8", "Digit8"); ("9", "Digit9");
    ("equal", "Equal");
    ("a", "KeyA"); ("b", "KeyB"); ("c", "KeyC"); ("d", "KeyD"); ("e", "KeyE");
    ("f", "KeyF"); ("g", "KeyG"); ("h", "KeyH"); ("i", "KeyI"); ("j", "KeyJ");
    ("k", "KeyK"); ("l", "KeyL"); ("m", "KeyM"); ("n", "KeyN"); ("o", "KeyO");
    ("p", "KeyP"); ("q", "KeyQ"); ("r", "KeyR"); ("s", "KeyS"); ("t", "KeyT");
    ("u", "KeyU"); ("v", "KeyV"); ("w", "KeyW"); ("x", "KeyX"); ("y", "KeyY");
    ("z", "KeyZ");
    ("minus", "Minus"); ("period", "Period"); ("apostrophe", "Quote");
    ("semicolon", "Semicolon"); ("slash", "Slash");
    (* functional keys *)
    ("escape", "Escape"); ("loption", "AltLeft"); ("roption", "AltRight");
    ("capslock", "CapsLock"); ("lcontrol", "ControlLeft");
    ("rcontrol", "ControlRight"); ("return", "Enter");
    ("lcommand", "MetaLeft"); ("rcommand", "MetaRight");
    ("lshift", "ShiftLeft"); ("rshift", "ShiftRight");
    ("space", "Space"); ("tab", "Tab");
    (* arrowpad *)
    ("down", "ArrowDown"); ("left", "ArrowLeft"); ("right", "ArrowRight");
    ("up", "ArrowUp");
    (* numeric pad *)
    ("num_0", "Numpad0"); ("num_1", "Numpad1"); ("num_2", "Numpad2");
    ("num_3", "Numpad3"); ("num_4", "Numpad4"); ("num_5", "Numpad5");
    ("num_6", "Numpad6"); ("num_7", "Numpad7"); ("num_8", "Numpad8");
    ("num_9", "Numpad9");
    ("num_decimal", "NumpadDecimal"); ("num_enter", "NumpadEnter");
    ("num_add", "NumpadAdd"); ("num_subtract", "NumpadSubtract");
    ("num_multiply", "NumpadMultiply"); ("num_divide", "NumpadDivide");
    ("num_equal", "NumpadEqual"); ("num_numlock", "NumpadNumlock") ].

Definition _pygletMap : gmap string string := Js.object_literal _pygletMap_literal.

(** The loop of the constructor that fills the reverse table, run on a
    table given by its literal [tbl] and starting from [rev]:
    [for (var keyName in tbl) rev[tbl[keyName]] = keyName]. *)
Definition populate_reverse (tbl : list (string * string))
    (rev : gmap string string) : gmap string string :=
  foldl (λ m keyName,
           match Js.object_literal tbl !! keyName with
           | Some c => <[c := keyName]> m
           | None => m
           end)
        rev (Js.for_in tbl).

(** [EventManager._reversePygletMap] once an [EventManager] has been
    constructed: it starts as [{}] and the constructor populates it. *)
Definition _reversePygletMap : gmap string string :=
  populate_reverse _pygletMap_literal ∅.

(** [_pyglet2w3c(pygletKeyList)]. *)
Fixpoint _pyglet2w3c_loop (pygletKeyList w3cKeyList : list string) : list string :=
  match pygletKeyList with
  | [] => w3cKeyList
  | k :: rest =>
      match _pygletMap !! k with
      | None => _pyglet2w3c_loop rest (w3cKeyList ++ [k])
      | Some c => _pyglet2w3c_loop rest (w3cKeyList ++ [c])
      end
  end.

Definition _pyglet2w3c (pygletKeyList : list string) : list string :=
  _pyglet2w3c_loop pygletKeyList [].

(** *** State *)

(** Modelled from the spec: the [Clock] class of [util/Clock] is not among
    the source files.  A clock holds the time of its last reset, which
    [getLastResetTime] reads and [reset] moves to the current time. *)
Record Clock := { lastResetTime : Q }.

Definition getLastResetTime (c : Clock) : Q := lastResetTime c.
Definition reset (now : Q) (c : Clock) : Clock := {| lastResetTime := now |}.

(** An entry of [_keyBuffer].  [code] is [None] on a browser that does
    not supply [KeyboardEvent.code]. *)
Record KeyEvent := {
  code : option string;
  key : string;
  keyCode : Z;
  timestamp : Q
}.

Record ButtonInfo := {
  pressed : list (option Z);
  clocks : list Clock;
  times : list (option Q)
}.

Record MouseInfo := {
  pos : Q * Q;
  wheelRel : Q * Q;
  buttons : ButtonInfo;
  moveClock : Clock
}.

Record EventManager := {
  _keyBuffer : list KeyEvent;
  _mouseInfo : MouseInfo
}.

Definition set_keyBuffer (b : list KeyEvent) (self : EventManager) : EventManager :=
  {| _keyBuffer := b; _mouseInfo := _mouseInfo self |}.

Definition set_mouseInfo (m : MouseInfo) (self : EventManager) : EventManager :=
  {| _keyBuffer := _keyBuffer self; _mouseInfo := m |}.

Definition set_buttons (b : ButtonInfo) (m : MouseInfo) : MouseInfo :=
  {| pos := pos m; wheelRel := wheelRel m; buttons := b; moveClock := moveClock m |}.

Definition set_pos (p : Q * Q) (m : MouseInfo) : MouseInfo :=
  {| pos := p; wheelRel := wheelRel m; buttons := buttons m; moveClock := moveClock m |}.

Definition set_wheelRel (r : Q * Q) (m : MouseInfo) : MouseInfo :=
  {| pos := pos m; wheelRel := r; buttons := buttons m; moveClock := moveClock m |}.

Definition set_moveClock (c : Clock) (m : MouseInfo) : MouseInfo :=
  {| pos := pos m; wheelRel := wheelRel m; buttons := buttons m; moveClock := c |}.

Definition set_pressed (p : list (option Z)) (b : ButtonInfo) : ButtonInfo :=
  {| pressed := p; clocks := clocks b; times := times b |}.

Definition set_times (t : list (option Q)) (b : ButtonInfo) : ButtonInfo :=
  {| pressed := pressed b; clocks := clocks b; times := t |}.

(** The constructor, at clock reading [now] (the start time of the four
    new clocks).  The reverse table it populates is [_reversePygletMap]. *)
Definition constructor (now : Q) : EventManager :=
  {| _keyBuffer := [];
     _mouseInfo :=
       {| pos := (0, 0)%Q;
          wheelRel := (0, 0)%Q;
          buttons :=
            {| pressed := [Some 0; Some 0; Some 0]%Z;
               clocks := [ {| lastResetTime := now |};
                           {| lastResetTime := now |};
                           {| lastResetTime := now |} ];
               times := [Some 0; Some 0; Some 0]%Q |};
          moveClock := {| lastResetTime := now |} |} |}.

(** *** Listeners *)

(** The fields of the DOM events that the listeners read.  [button] is
    the button number of a pointer-down or pointer-up event, counted
    from 0. *)
Record KeyboardEvent := { e_code : option string; e_key : string; e_keyCode : Z }.
Record PointerEvent := { button : nat; offsetX : Q; offsetY : Q }.
Record WheelEvent := { deltaX : Q; deltaY : Q }.

(** The ["keydown"] listener of [_addKeyListeners]; [referenceTime] is the
    value of [MonotonicClock.getReferenceTime()] read by the listener.
    Its call of [logger.trace], which prints the buffer, changes nothing
    in the manager and is left out. *)
Definition keydown (e : KeyboardEvent) (referenceTime : Q)
    (self : EventManager) : EventManager :=
  set_keyBuffer
    (_keyBuffer self ++
       [ {| code := e_code e;
            key := e_key e;
            keyCode := e_keyCode e;
            timestamp := (referenceTime / 1000)%Q |} ])
    self.

(** The ["pointerdown"] listener of [addMouseListeners]; [now] is the
    reading of [_psychoJS._monotonicClock.getTime()].  The listener
    writes [pressed[event.button]] first; reading the clock of a button
    that has none then throws, before [times] and [pos] are written. *)
Definition pointerdown (event : PointerEvent) (now : Q)
    (self : EventManager) : Js.Completion EventManager :=
  let m := _mouseInfo self in
  let b := set_pressed (Js.array_set (button event) 1%Z (pressed (buttons m))) (buttons m) in
  match clocks b !! button event with
  | None => Js.Threw (set_mouseInfo (set_buttons b m) self)
  | Some clock =>
      let b := set_times
                 (Js.array_set (button event) (now - getLastResetTime clock)%Q (times b))
                 b in
      Js.Done (set_mouseInfo
                 (set_pos (offsetX event, offsetY event) (set_buttons b m))
                 self)
  end.

(** The ["pointerup"] listener. *)
Definition pointerup (event : PointerEvent) (now : Q)
    (self : EventManager) : Js.Completion EventManager :=
  let m := _mouseInfo self in
  let b := set_pressed (Js.array_set (button event) 0%Z (pressed (buttons m))) (buttons m) in
  match clocks b !! button event with
  | None => Js.Threw (set_mouseInfo (set_buttons b m) self)
  | Some clock =>
      let b := set_times
                 (Js.array_set (button event) (now - getLastResetTime clock)%Q (times b))
                 b in
      Js.Done (set_mouseInfo
                 (set_pos (offsetX event, offsetY event) (set_buttons b m))
                 self)
  end.

(** The ["pointermove"] listener; [now] is the time to which
    [moveClock.reset()] sets the move clock. *)
Definition pointermove (event : PointerEvent) (now : Q)
    (self : EventManager) : EventManager :=
  let m := set_pos (offsetX event, offsetY event) (_mouseInfo self) in
  set_mouseInfo (set_moveClock (reset now (moveClock m)) m) self.

(** The ["wheel"] listener. *)
Definition wheel (event : WheelEvent) (self : EventManager) : EventManager :=
  let m := _mouseInfo self in
  let r := wheelRel m in
  set_mouseInfo (set_wheelRel ((r.1 + deltaX event)%Q, (r.2 + deltaY event)%Q) m) self.

(** *** Methods *)

(** An element of the array returned by [getKeys]: a key name, or the
    pair [[keyId, timestamp]]. *)
Inductive KeyResult :=
| KeyName (keyId : string)
| KeyStamped (keyId : string) (timestamp : Q).

(** The [keyId] computed by one iteration of the loop of [getKeys]. *)
Definition getKeys_keyId (keyList : option (list string)) (key : KeyEvent) : option string :=
  match keyList with
  | Some keyList =>
      let index := Js.indexOf keyList (code key) in
      let index :=
        if (index <? 0)%Z then Js.indexOf keyList (_keycodeMap !! keyCode key)
        else index in
      if (0 <=? index)%Z
      then Js.at_index keyList index ≫= (λ c, _reversePygletMap !! c)
      else None
  | None => code key ≫= (λ c, _reversePygletMap !! c)
  end.

(** The loop of [getKeys] over the remaining buffer, with the two arrays
    it pushes to. *)
Fixpoint getKeys_loop (keyList : option (list string)) (timeStamped : bool)
    (buffer newBuffer : list KeyEvent) (keys : list KeyResult)
    : list KeyEvent * list KeyResult :=
  match buffer with
  | [] => (newBuffer, keys)
  | key :: rest =>
      match getKeys_keyId keyList key with
      | Some keyId =>
          getKeys_loop keyList timeStamped rest newBuffer
            (keys ++ [ if timeStamped then KeyStamped keyId (timestamp key)
                       else KeyName keyId ])
      | None =>
          getKeys_loop keyList timeStamped rest (newBuffer ++ [key]) keys
      end
  end.

(** [getKeys({keyList, timeStamped})]: the returned array and the manager
    afterwards. *)
Definition getKeys (keyList : option (list string)) (timeStamped : bool)
    (self : EventManager) : list KeyResult * EventManager :=
  let keyList := _pyglet2w3c <$> keyList in
  let '(newBuffer, keys) := getKeys_loop keyList timeStamped (_keyBuffer self) [] [] in
  (keys, set_keyBuffer newBuffer self).

Definition getMouseInfo (self : EventManager) : MouseInfo := _mouseInfo self.

Definition clearKeys (self : EventManager) : EventManager :=
  set_keyBuffer [] self.

Definition clearEvents {A : Type} (attribs : A) (self : EventManager) : EventManager :=
  clearKeys self.

End EventManager.

(** ** Window *)

Module Window.

Section Model.

(** Types of the values the window only passes on: the object attached
    to a log message, the arguments and the identity of a flip callback,
    and the attributes of a stimulus. *)
Context {Obj Arg Fn StimData : Type}.

(** An entry of [_msgToBeLogged]. *)
Record LogEntry := { msg : string; level : Z; obj : option Obj }.

(** What the window reads of a stimulus of its draw list: the flag
    [_needUpdate] and the PIXI display object [_pixi] (by its identity). *)
Record Stim := { stim_needUpdate : bool; _pixi : nat; stim_data : StimData }.

Record Window := {
  _msgToBeLogged : list LogEntry;
  _drawList : list nat;
  _frameCount : Z;
  _flipCallback : option Fn;
  _flipCallbackArgs : option (list Arg);
  _needUpdate : bool;
  _color : Z
}.

(** The window together with the stimulus objects that its draw list
    refers to: [_drawList] holds references into [stims], so that a
    stimulus listed twice, or changed by a callback, is one object. *)
Record Store := { window : Window; stims : gmap nat Stim }.

(** Calls to collaborators, in the order the window makes them. *)
Inductive Event :=
| RendererRender
| GlReadPixels
| LoggerLog (msg : string) (level : Z) (time : Q) (obj : option Obj)
| FlipCallback (f : Fn) (args : list Arg)
| SetBackgroundColor (c : Z)
| RemoveChild (pixi : nat)
| StimUpdateIfNeeded (stim : nat)
| AddChild (pixi : nat).

(** A method of the window: it transforms the store, emits events and
    either returns or throws. *)
Inductive Result (A : Type) := Return (a : A) | Throw.
#[global] Arguments Return {A} a.
#[global] Arguments Throw {A}.

Definition M (A : Type) : Type := Store → list Event * Store * Result A.

Definition ret {A} (a : A) : M A := λ s, ([], s, Return a).

Definition bind {A B} (m : M A) (k : A → M B) : M B :=
  λ s, match m s with
       | (tr, s', Return a) =>
           let '(tr', s'', r) := k a s' in (tr ++ tr', s'', r)
       | (tr, s', Throw) => (tr, s', Throw)
       end.

Definition emit (e : Event) : M unit := λ s, ([e], s, Return ()).
Definition gets {A} (f : Store → A) : M A := λ s, ([], s, Return (f s)).
Definition modify (f : Store → Store) : M unit := λ s, ([], f s, Return ()).
Definition throw {A} : M A := λ s, ([], s, Throw).

Definition trace {A} (r : list Event * Store * Result A) : list Event := r.1.1.
Definition store {A} (r : list Event * Store * Result A) : Store := r.1.2.
Definition result {A} (r : list Event * Store * Result A) : Result A := r.2.

Local Notation "x <- m ;; k" := (bind m (λ x, k))
  (at level 20, m at level 99, k at level 200, only parsing).
Local Notation "m ;; k" := (bind m (λ _, k))
  (at level 100, k at level 200, only parsing, right associativity).

Fixpoint for_each {A} (l : list A) (body : A → M unit) : M unit :=
  match l with
  | [] => ret ()
  | x :: l' => body x ;; for_each l' body
  end.

Definition update_window (f : Window → Window) (s : Store) : Store :=
  {| window := f (window s); stims := stims s |}.

Definition update_stim (ref : nat) (f : Stim → Stim) (s : Store) : Store :=
  {| window := window s; stims := alter f ref (stims s) |}.

(** The state set up by the constructor, with the colour [color.int]. *)
Definition constructor (color : Z) : Store :=
  {| window := {| _msgToBeLogged := [];
                  _drawList := [];
                  _frameCount := 0;
                  _flipCallback := None;
                  _flipCallbackArgs := None;
                  _needUpdate := false;
                  _color := color |};
     stims := ∅ |}.


(** [callOnFlip(flipCallback, ...flipCallbackArgs)]; the first argument
    may be [undefined]. *)
Definition callOnFlip (flipCallback : option Fn) (flipCallbackArgs : list Arg) : M unit :=
  modify (update_window (λ w,
    {| _msgToBeLogged := _msgToBeLogged w;
       _drawList := _drawList w;
       _frameCount := _frameCount w;
       _flipCallback := flipCallback;
       _flipCallbackArgs := Some flipCallbackArgs;
       _needUpdate := _needUpdate w;
       _color := _color w |})).

(** [_writeLogOnFlip()]; [logTime] is the value read from
    [MonotonicClock.getReferenceTime()]. *)
Definition _writeLogOnFlip (logTime : Q) : M unit :=
  entries <- gets (λ s, _msgToBeLogged (window s)) ;;
  for_each entries (λ entry,
    emit (LoggerLog (msg entry) (level entry) logTime (obj entry))) ;;
  modify (update_window (λ w,
    {| _msgToBeLogged := [];
       _drawList := _drawList w;
       _frameCount := _frameCount w;
       _flipCallback := _flipCallback w;
       _flipCallbackArgs := _flipCallbackArgs w;
       _needUpdate := _needUpdate w;
       _color := _color w |})).

(** [_updateIfNeeded()] of the window. *)
Definition _updateIfNeeded : M unit :=
  needUpdate <- gets (λ s, _needUpdate (window s)) ;;
  if needUpdate : bool then
    c <- gets (λ s, _color (window s)) ;;
    emit (SetBackgroundColor c) ;;
    modify (update_window (λ w,
      {| _msgToBeLogged := _msgToBeLogged w;
         _drawList := _drawList w;
         _frameCount := _frameCount w;
         _flipCallback := _flipCallback w;
         _flipCallbackArgs := _flipCallbackArgs w;
         _needUpdate := false;
         _color := _color w |}))
  else ret ().

Section Behaviour.

(** The two pieces of code the window calls back into: the effect on
    a stimulus of its own [_updateIfNeeded()], and the effect on the
    store of calling the function [f] with [this] bound to the window
    and the arguments [args]. *)
Variable stim_updateIfNeeded : Stim → Stim.
Variable invoke : Fn → list Arg → Store → Store.

(** The body of the loop of [_refresh] for the stimulus [ref]. *)
Definition refresh_stim (ref : nat) : M unit :=
  stim <- gets (λ s, stims s !! ref) ;;
  match stim with
  | Some stim =>
      if stim_needUpdate stim then
        emit (RemoveChild (_pixi stim)) ;;
        emit (StimUpdateIfNeeded ref) ;;
        modify (update_stim ref stim_updateIfNeeded) ;;
        pixi <- gets (λ s, _pixi <$> stims s !! ref) ;;
        match pixi with
        | Some pixi => emit (AddChild pixi)
        | None => ret ()
        end
      else ret ()
  | None => ret ()
  end.

(** [_refresh()]. *)
Definition _refresh : M unit :=
  _updateIfNeeded ;;
  drawList <- gets (λ s, _drawList (window s)) ;;
  for_each drawList refresh_stim.

(** [render()]; [logTime] is read by [_writeLogOnFlip]. *)
Definition render (logTime : Q) : M unit :=
  modify (update_window (λ w,
    {| _msgToBeLogged := _msgToBeLogged w;
       _drawList := _drawList w;
       _frameCount := (_frameCount w + 1)%Z;
       _flipCallback := _flipCallback w;
       _flipCallbackArgs := _flipCallbackArgs w;
       _needUpdate := _needUpdate w;
       _color := _color w |})) ;;
  emit RendererRender ;;
  emit GlReadPixels ;;
  _writeLogOnFlip logTime ;;
  flipCallback <- gets (λ s, _flipCallback (window s)) ;;
  match flipCallback with
  | Some f =>
      args <- gets (λ s, _flipCallbackArgs (window s)) ;;
      match args with
      | Some args => emit (FlipCallback f args) ;; modify (invoke f args)
      | None => throw
      end
  | None => ret ()
  end ;;
  _refresh.

End Behaviour.

End Model.

Global Arguments LogEntry : clear implicits.
Global Arguments Stim : clear implicits.
Global Arguments Window : clear implicits.
Global Arguments Store : clear implicits.
Global Arguments Event : clear implicits.

End Window.

(** ** EventManager: the move clock methods *)

Module MoveClock.
Import EventManager.

(** [startMoveClock()], [stopMoveClock()] and [resetMoveClock()], whose
    bodies are empty. *)
Definition startMoveClock (self : EventManager) : EventManager := self.
Definition stopMoveClock (self : EventManager) : EventManager := self.
Definition resetMoveClock (self : EventManager) : EventManager := self.

End MoveClock.

(** ** EventManager: reads that reach Object.prototype *)

Module Prototype.
Import EventManager.

(** The names of the members of [Object.prototype].  [_pygletMap] and
    [_reversePygletMap] are object literals: a read [table[k]] of a name
    [k] that is no key of the table finds the member of that name, when
    there is one. *)
Definition object_prototype : list string :=
  [ "constructor"; "__defineGetter__"; "__defineSetter__"; "hasOwnProperty";
    "__lookupGetter__"; "__lookupSetter__"; "isPrototypeOf";
    "propertyIsEnumerable"; "toString"; "valueOf"; "__proto__";
    "toLocaleString" ].

(** What such a read returns: a string of the table, or the inherited
    member of the given name (a function; for [__proto__] the prototype
    itself). *)
Inductive Value :=
| Str (s : string)
| Member (name : string).

(** [table[k]]: the own property first, then the prototype; [None] is
    [undefined]. *)
Definition get (table : gmap string string) (k : string) : option Value :=
  match table !! k with
  | Some v => Some (Str v)
  | None => if bool_decide (k ∈ object_prototype) then Some (Member k) else None
  end.

(** [_pyglet2w3c(pygletKeyList)], with the reads of [_pygletMap] going
    through [get]: an inherited member is not [undefined], and is pushed
    in place of the name. *)
Fixpoint _pyglet2w3c_loop (pygletKeyList : list string) (w3cKeyList : list Value) :
    list Value :=
  match pygletKeyList with
  | [] => w3cKeyList
  | name :: rest =>
      match get _pygletMap name with
      | None => _pyglet2w3c_loop rest (w3cKeyList ++ [Str name])
      | Some v => _pyglet2w3c_loop rest (w3cKeyList ++ [v])
      end
  end.

Definition _pyglet2w3c (pygletKeyList : list string) : list Value :=
  _pyglet2w3c_loop pygletKeyList [].

End Prototype.

(** ** Window: going full screen *)

Module Screen.
Import Window.

(** The entry points of [document.documentElement] that
    [adjustScreenSize] tries, in this order. *)
Inductive FullscreenApi :=
| requestFullscreen
| mozRequestFullScreen
| webkitRequestFullscreen
| msRequestFullscreen.

(** The calls that [adjustScreenSize] makes outside the window: one of
    the entry points, or the logger's [warn]. *)
Inductive ScreenCall :=
| Request (api : FullscreenApi)
| LoggerWarn (msg : string).

Section Model.
Context {Obj Arg Fn StimData : Type}.

Definition set_stim_needUpdate (flag : bool) (stim : Stim StimData) : Stim StimData :=
  {| stim_needUpdate := flag; _pixi := _pixi stim; stim_data := stim_data stim |}.

Definition set_needUpdate (flag : bool) (w : Window Obj Arg Fn) : Window Obj Arg Fn :=
  {| _msgToBeLogged := _msgToBeLogged w;
     _drawList := _drawList w;
     _frameCount := _frameCount w;
     _flipCallback := _flipCallback w;
     _flipCallbackArgs := _flipCallbackArgs w;
     _needUpdate := flag;
     _color := _color w |}.

(** [adjustScreenSize()].  [fullscr] is the value of the attribute
    [this.fullscr], which the window inherits from [PsychObject];
    [available api] tells whether
    [typeof document.documentElement.api === 'function']. *)
Definition adjustScreenSize (fullscr : bool) (available : FullscreenApi → bool)
    (s : Store Obj Arg Fn StimData) : list ScreenCall * Store Obj Arg Fn StimData :=
  if fullscr then
    let call :=
      if available requestFullscreen then Request requestFullscreen
      else if available mozRequestFullScreen then Request mozRequestFullScreen
      else if available webkitRequestFullscreen then Request webkitRequestFullscreen
      else if available msRequestFullscreen then Request msRequestFullscreen
      else LoggerWarn "Unable to go fullscreen." in
    let s := update_window (set_needUpdate true) s in
    ([call],
     foldl (λ s stim, update_stim stim (set_stim_needUpdate true) s)
           s (_drawList (window s)))
  else ([], s).

End Model.

End Screen.

(** * Vocabulary of the properties *)

Module Spec.
Import EventManager.

(** [toStandardCodes] of the design document, element by element: the
    table entry of a name of the table, the identifier itself otherwise. *)
Definition toStandardCode (name : string) : string :=
  default name (_pygletMap !! name).

(** [toLegacyName] of the design document: a read of the reverse table. *)
Definition toLegacyName (standardCode : string) : option string :=
  _reversePygletMap !! standardCode.

(** The legacy names that the table maps to the code [c], in the order in
    which the constructor visits them. *)
Definition legacy_names (c : string) : list string :=
  filter (λ n, _pygletMap !! n = Some c) (Js.for_in _pygletMap_literal).

(** [c] when it is an element of the filter [F], nothing otherwise. *)
Definition in_filter (F : list string) (c : option string) : option string :=
  c ≫= (λ c, if bool_decide (c ∈ F) then Some c else None).

(** The entry of the normalised filter [F] that the event [e] matches:
    its own code if the filter lists it, else the code that
    [_keycodeMap] gives for its numeric key code if the filter lists
    that one. *)
Definition matched_entry (F : list string) (e : KeyEvent) : option string :=
  match in_filter F (code e) with
  | Some c => Some c
  | None => in_filter F (_keycodeMap !! keyCode e)
  end.


Definition key_result (timeStamped : bool) (e : KeyEvent) (keyId : string) : KeyResult :=
  if timeStamped then KeyStamped keyId (timestamp e) else KeyName keyId.


(** A browser reports a press of F1, a key that has no pyglet name. *)
Definition press_F1 : KeyboardEvent :=
  {| e_code := Some "F1"; e_key := "F1"; e_keyCode := 112 |}.

(** The per-button clocks and elapsed times of a manager. *)
Definition button_clocks (self : EventManager) : list Clock :=
  clocks (buttons (_mouseInfo self)).

Definition button_times (self : EventManager) : list (option Q) :=
  times (buttons (_mouseInfo self)).

Definition button_pressed (self : EventManager) : list (option Z) :=
  pressed (buttons (_mouseInfo self)).

Section Window.
Import Window.
Context {Obj Arg Fn StimData : Type}.

Local Abbreviation Store := (Store Obj Arg Fn StimData).
Local Abbreviation Event := (Event Obj Arg Fn).
Local Abbreviation Window := (Window Obj Arg Fn).

(** The call of the logger that flushes [entry] at time [logTime]. *)
Definition log_event (logTime : Q) (entry : LogEntry Obj) : Event :=
  LoggerLog (msg entry) (level entry) logTime (obj entry).

(** The calls of the flip callback in a trace, the times handed to the
    logger in a trace. *)
Definition flip_calls (tr : list Event) : list (Fn * list Arg) :=
  omap (λ ev, match ev with FlipCallback f args => Some (f, args) | _ => None end) tr.

Definition log_times (tr : list Event) : list Q :=
  omap (λ ev, match ev with LoggerLog _ _ t _ => Some t | _ => None end) tr.

(** The callback registration held by the window. *)
Definition registration (s : Store) : option Fn * option (list Arg) :=
  (_flipCallback (window s), _flipCallbackArgs (window s)).

(** The window after the first statement of [render] and after the
    last statement of [_writeLogOnFlip]. *)
Definition bump_frameCount (w : Window) : Window :=
  {| _msgToBeLogged := _msgToBeLogged w;
     _drawList := _drawList w;
     _frameCount := (_frameCount w + 1)%Z;
     _flipCallback := _flipCallback w;
     _flipCallbackArgs := _flipCallbackArgs w;
     _needUpdate := _needUpdate w;
     _color := _color w |}.

Definition clear_log (w : Window) : Window :=
  {| _msgToBeLogged := [];
     _drawList := _drawList w;
     _frameCount := _frameCount w;
     _flipCallback := _flipCallback w;
     _flipCallbackArgs := _flipCallbackArgs w;
     _needUpdate := _needUpdate w;
     _color := _color w |}.

Definition clear_needUpdate (w : Window) : Window :=
  {| _msgToBeLogged := _msgToBeLogged w;
     _drawList := _drawList w;
     _frameCount := _frameCount w;
     _flipCallback := _flipCallback w;
     _flipCallbackArgs := _flipCallbackArgs w;
     _needUpdate := false;
     _color := _color w |}.

(** The calls that [_refresh] makes. *)
Definition refresh_event (ev : Event) : Prop :=
  match ev with
  | SetBackgroundColor _ | RemoveChild _ | StimUpdateIfNeeded _ | AddChild _ => True
  | _ => False
  end.

(** The three calls by which [_refresh] brings the stimulus [ref],
    found in state [stim], up to date. *)
Definition update_block (stim_updateIfNeeded : Stim StimData → Stim StimData)
    (ref : nat) (stim : Stim StimData) : list Event :=
  [ RemoveChild (_pixi stim);
    StimUpdateIfNeeded ref;
    AddChild (_pixi (stim_updateIfNeeded stim)) ].

(** The reading of the design document: in the trace of a tick the
    update of the stimulus [ref] comes before the render call. *)
Definition updated_before_render (tr : list Event) (ref : nat) : Prop :=
  ∃ i j : nat,
    tr !! i = Some (StimUpdateIfNeeded ref) ∧
    tr !! j = Some RendererRender ∧
    (i < j)%nat.

(** The call of the flip callback that a tick makes from the store [s]:
    one when the window holds a callback and its arguments. *)
Definition flip_events (s : Store) : list Event :=
  match _flipCallback (window s), _flipCallbackArgs (window s) with
  | Some f, Some args => [FlipCallback f args]
  | _, _ => []
  end.

(** What the code does instead, in the trace [tr] of a tick started at
    time [logTime] from the store [s]: the render call, the read-back,
    the flush of the log queue and the call of the flip callback come
    first, in this order; all that follows are calls of [_refresh],
    the three calls that update [ref] among them. *)
Definition updated_after_render (stim_updateIfNeeded : Stim StimData → Stim StimData)
    (logTime : Q) (s : Store) (tr : list Event) (ref : nat) (stim : Stim StimData) :
    Prop :=
  ∃ pre post : list Event,
    tr = RendererRender :: GlReadPixels ::
           map (log_event logTime) (_msgToBeLogged (window s)) ++ flip_events s ++
           pre ++ update_block stim_updateIfNeeded ref stim ++ post ∧
    Forall refresh_event (pre ++ update_block stim_updateIfNeeded ref stim ++ post).

(** A flip callback that leaves the registration as it finds it, and
    one that leaves the draw list and the stimuli as it finds them. *)
Definition keeps_registration (invoke : Fn → list Arg → Store → Store) : Prop :=
  ∀ f args s, registration (invoke f args s) = registration s.

Definition keeps_stimuli (invoke : Fn → list Arg → Store → Store) : Prop :=
  ∀ f args s,
    stims (invoke f args s) = stims s ∧
    _drawList (window (invoke f args s)) = _drawList (window s).

(** The reading of the design document: the tick that calls the
    registered callback clears the registration, so that the next
    tick calls nothing. *)
Definition one_shot (stim_updateIfNeeded : Stim StimData → Stim StimData)
    (invoke : Fn → list Arg → Store → Store) (logTime logTime' : Q) (s : Store) : Prop :=
  let tick := render stim_updateIfNeeded invoke logTime s in
  _flipCallback (window (store tick)) = None ∧
  flip_calls (trace (render stim_updateIfNeeded invoke logTime' (store tick))) = [].

End Window.

(** *** A small experiment

    A window with one stimulus, flagged for update, and a flip callback
    ["resetClock"] that does not touch the window. *)

Definition apply_update (stim : Window.Stim unit) : Window.Stim unit :=
  {| Window.stim_needUpdate := false;
     Window._pixi := Window._pixi stim;
     Window.stim_data := Window.stim_data stim |}.

Definition no_effect (f : string) (args : list Z)
    (s : Window.Store string Z string unit) : Window.Store string Z string unit := s.

Definition one_flagged_stim : Window.Store string Z string unit :=
  {| Window.window :=
       {| Window._msgToBeLogged := [];
          Window._drawList := [0%nat];
          Window._frameCount := 0;
          Window._flipCallback := None;
          Window._flipCallbackArgs := None;
          Window._needUpdate := false;
          Window._color := 0 |};
     Window.stims :=
       {[ 0%nat := {| Window.stim_needUpdate := true;
                      Window._pixi := 7%nat;
                      Window.stim_data := () |} ]} |}.

Definition with_callback : Window.Store string Z string unit :=
  Window.store (Window.callOnFlip (Some "resetClock") [1; 2]%Z (Window.constructor 0)).

End Spec.

(** * Vocabulary of the further properties *)

Module Vocabulary.
Import EventManager Spec.

(** The value read at index [i] of an array with holes: [undefined]
    ([None]) for a hole and beyond the end. *)
Definition array_get {A} (a : list (option A)) (i : nat) : option A :=
  a !! i ≫= id.

(** The name under which [getKeys] with the key list [keyList] reports
    the event [e], if it reports it. *)
Definition reported_name (keyList : option (list string)) (e : KeyEvent) : option string :=
  match keyList with
  | Some keyList => matched_entry (_pyglet2w3c keyList) e ≫= toLegacyName
  | None => code e ≫= toLegacyName
  end.

(** The event that the [keydown] listener buffers. *)
Definition captured (e : KeyboardEvent) (referenceTime : Q) : KeyEvent :=
  {| code := e_code e; key := e_key e; keyCode := e_keyCode e;
     timestamp := (referenceTime / 1000)%Q |}.

(** The button arrays as the constructor builds them: three buttons,
    each with a flag 0 or 1, a clock and an elapsed time. *)
Definition buttons_wf (self : EventManager) : Prop :=
  length (button_clocks self) = 3%nat ∧
  length (button_pressed self) = 3%nat ∧
  length (button_times self) = 3%nat ∧
  Forall (λ p, p = Some 0%Z ∨ p = Some 1%Z) (button_pressed self) ∧
  Forall is_Some (button_times self).

(** What reaches the manager: a DOM event with the clock reading its
    listener takes, or a call of a method. *)
Inductive Input :=
| KeyDown (e : KeyboardEvent) (referenceTime : Q)
| PointerDown (e : PointerEvent) (now : Q)
| PointerUp (e : PointerEvent) (now : Q)
| PointerMove (e : PointerEvent) (now : Q)
| Wheel (e : WheelEvent)
| GetKeys (keyList : option (list string)) (timeStamped : bool)
| ClearKeys
| ClearEvents
| StartMoveClock
| StopMoveClock
| ResetMoveClock.

(** The manager after one input; a listener that throws leaves the
    state it had reached. *)
Definition step (self : EventManager) (i : Input) : EventManager :=
  match i with
  | KeyDown e t => keydown e t self
  | PointerDown e t => Js.state_of (pointerdown e t self)
  | PointerUp e t => Js.state_of (pointerup e t self)
  | PointerMove e t => pointermove e t self
  | Wheel e => wheel e self
  | GetKeys keyList timeStamped => (getKeys keyList timeStamped self).2
  | ClearKeys => clearKeys self
  | ClearEvents => clearEvents () self
  | StartMoveClock => MoveClock.startMoveClock self
  | StopMoveClock => MoveClock.stopMoveClock self
  | ResetMoveClock => MoveClock.resetMoveClock self
  end.

Definition run (inputs : list Input) (self : EventManager) : EventManager :=
  foldl step self inputs.

(** An input of one of the three buttons of the mouse information. *)
Definition three_buttons (i : Input) : Prop :=
  match i with
  | PointerDown e _ | PointerUp e _ => (button e < 3)%nat
  | _ => True
  end.

(** The wheel events, the times of the pointer moves, the positions of
    the pointer events and the captured key events of a list of inputs. *)
Definition wheel_events (inputs : list Input) : list WheelEvent :=
  omap (λ i, match i with Wheel e => Some e | _ => None end) inputs.

Definition move_times (inputs : list Input) : list Q :=
  omap (λ i, match i with PointerMove _ t => Some t | _ => None end) inputs.

Definition pointer_positions (inputs : list Input) : list (Q * Q) :=
  omap (λ i, match i with
             | PointerDown e _ | PointerUp e _ | PointerMove e _ =>
                 Some (offsetX e, offsetY e)
             | _ => None
             end) inputs.

Definition captured_events (inputs : list Input) : list KeyEvent :=
  omap (λ i, match i with KeyDown e t => Some (captured e t) | _ => None end) inputs.

(** The wheel movement after the wheel events [es], from the movement
    [wheelRel]: each event adds its deltas, in the order of the events. *)
Definition wheel_sum (wheelRel : Q * Q) (es : list WheelEvent) : Q * Q :=
  foldl (λ r e, ((r.1 + deltaX e)%Q, (r.2 + deltaY e)%Q)) wheelRel es.

(** What [_pyglet2w3c] pushes for a name: the entry of [_pygletMap] for a
    key of the table, the inherited member for a name of a member of
    [Object.prototype], and the name itself otherwise. *)
Definition pushed (name : string) : Prototype.Value :=
  match _pygletMap !! name with
  | Some standardCode => Prototype.Str standardCode
  | None =>
      if bool_decide (name ∈ Prototype.object_prototype)
      then Prototype.Member name
      else Prototype.Str name
  end.

(** An event whose code, if it has one, does not name a member of
    [Object.prototype]. *)
Definition plain_code (e : KeyEvent) : Prop :=
  match code e with
  | Some c => c ∉ Prototype.object_prototype
  | None => True
  end.

(** The reading of the design document for a button [b] pressed at [t1]
    and released at [t2] at the position [pos]: after the two listeners
    the elapsed time stored for [b] is [t2] minus the last reset time of
    the clock of [b]. *)
Definition down_up_stores_elapsed (b : nat) (t1 t2 : Q) (pos : Q * Q)
    (self : EventManager) : Prop :=
  let e := {| button := b; offsetX := pos.1; offsetY := pos.2 |} in
  let down := Js.state_of (pointerdown e t1 self) in
  let up := Js.state_of (pointerup e t2 down) in
  ∃ clock : Clock,
    button_clocks self !! b = Some clock ∧
    array_get (button_times up) b = Some (t2 - getLastResetTime clock)%Q.

Section WindowMore.
Import Window.
Context {Obj Arg Fn StimData : Type}.

Local Abbreviation Store := (Store Obj Arg Fn StimData).
Local Abbreviation Event := (Event Obj Arg Fn).

(** The stimuli on which a trace calls [_updateIfNeeded], in call order. *)
Definition updates_of (tr : list Event) : list nat :=
  omap (λ ev, match ev with StimUpdateIfNeeded ref => Some ref | _ => None end) tr.

(** The colours that a trace sets as background. *)
Definition backgrounds_of (tr : list Event) : list Z :=
  omap (λ ev, match ev with SetBackgroundColor c => Some c | _ => None end) tr.

(** The stimulus [ref] exists and its [_needUpdate] flag is set. *)
Definition flagged (s : Store) (ref : nat) : bool :=
  default false (stim_needUpdate <$> stims s !! ref).

(** A stimulus whose [_updateIfNeeded] lowers its flag. *)
Definition lowers_flag (stim_updateIfNeeded : Stim StimData → Stim StimData) : Prop :=
  ∀ stim, stim_needUpdate (stim_updateIfNeeded stim) = false.

(** Flip callbacks that leave the frame counter, and the log queue,
    as they find them. *)
Definition keeps_frameCount (invoke : Fn → list Arg → Store → Store) : Prop :=
  ∀ f args s, _frameCount (window (invoke f args s)) = _frameCount (window s).

Definition keeps_log (invoke : Fn → list Arg → Store → Store) : Prop :=
  ∀ f args s, _msgToBeLogged (window (invoke f args s)) = _msgToBeLogged (window s).

(** No stimulus of the draw list is flagged. *)
Definition settled (s : Store) : Prop :=
  ∀ ref, ref ∈ _drawList (window s) → flagged s ref = false.

(** The window holds a callback without its array of arguments, on
    which [render] throws. *)
Definition stuck (s : Store) : Prop :=
  is_Some (_flipCallback (window s)) ∧ _flipCallbackArgs (window s) = None.

End WindowMore.

(** *** The small experiment, continued *)

(** A browser without [code]: a press of the A key is reported by its
    numeric code alone. *)
Definition press_A_legacy : KeyboardEvent :=
  {| e_code := None; e_key := "a"; e_keyCode := 65 |}.

(** A press of the main Enter key. *)
Definition press_Enter : KeyboardEvent :=
  {| e_code := Some "Enter"; e_key := "Enter"; e_keyCode := 13 |}.

(** A document in which only the WebKit entry point exists. *)
Definition webkit_only (api : Screen.FullscreenApi) : bool :=
  match api with Screen.webkitRequestFullscreen => true | _ => false end.

(** Two stimuli, the first of them listed twice in the draw list. *)
Definition two_stims : Window.Store string Z string unit :=
  {| Window.window :=
       {| Window._msgToBeLogged := [];
          Window._drawList := [0%nat; 1%nat; 0%nat];
          Window._frameCount := 0;
          Window._flipCallback := None;
          Window._flipCallbackArgs := None;
          Window._needUpdate := false;
          Window._color := 128 |};
     Window.stims :=
       {[ 0%nat := {| Window.stim_needUpdate := true;
                      Window._pixi := 7%nat;
                      Window.stim_data := () |};
          1%nat := {| Window.stim_needUpdate := false;
                      Window._pixi := 8%nat;
                      Window.stim_data := () |} ]} |}.

End Vocabulary.

(** * Properties *)

(** ** Key-name tables *)

Module KeyNames.
Import EventManager Spec.

(** The constructor visits the digit names first, in increasing order,
    and then the other names in the order of the literal. *)
Example for_in_pygletMap :
  take 12 (Js.for_in _pygletMap_literal) =
    ["0"; "1"; "2"; "3"; "4"; "5"; "6"; "7"; "8"; "9"; "grave"; "backslash"].
Proof. vm_compute. reflexivity. Qed.

Example tables_sample :
  _reversePygletMap !! "KeyA" = Some "a" ∧
  _reversePygletMap !! "F1" = None ∧
  _keycodeMap !! 13%Z = Some "NumpadEnter" ∧
  _pyglet2w3c ["a"; "F1"; "a"; "num_enter"] = ["KeyA"; "F1"; "KeyA"; "NumpadEnter"].
Proof. vm_compute. auto. Qed.

Lemma _pyglet2w3c_loop_app (l acc : list string) :
  _pyglet2w3c_loop l acc = acc ++ map toStandardCode l.
Proof.
  revert acc. induction l as [|k l IH]; intros acc.
  - by rewrite app_nil_r.
  - cbn [_pyglet2w3c_loop map].
    replace (toStandardCode k)
      with (match _pygletMap !! k with Some c => c | None => k end)
      by (unfold toStandardCode; by destruct (_pygletMap !! k)).
    destruct (_pygletMap !! k) as [c|]; rewrite IH, <- app_assoc; reflexivity.
Qed.

Lemma _pyglet2w3c_map (l : list string) :
  _pyglet2w3c l = map toStandardCode l.
Proof. unfold _pyglet2w3c. by rewrite _pyglet2w3c_loop_app. Qed.

(** Read by its own properties alone, [_pygletMap] makes [_pyglet2w3c]
    a map over the list: the i-th element of the result is the entry of
    the table for the i-th name when there is one and the name itself
    otherwise. *)
Lemma pyglet2w3c_pointwise (pygletKeyList : list string) :
  length (_pyglet2w3c pygletKeyList) = length pygletKeyList ∧
  ∀ i : nat,
    _pyglet2w3c pygletKeyList !! i =
      (λ name, match _pygletMap !! name with
               | Some standardCode => standardCode
               | None => name
               end) <$> pygletKeyList !! i.
Proof.
  rewrite _pyglet2w3c_map. split.
  - apply length_map.
  - intros i. rewrite list_lookup_fmap. reflexivity.
Qed.

(** The reverse table after the constructor's loop over the keys [ks] of
    a table [tbl]: the last visited key that [tbl] maps to [c], and the
    previous content where there is none. *)
Lemma populate_loop_lookup (tbl rev : gmap string string) (ks : list string) (c : string) :
  foldl (λ m keyName,
           match tbl !! keyName with
           | Some c' => <[c' := keyName]> m
           | None => m
           end) rev ks !! c =
  match last (filter (λ n, tbl !! n = Some c) ks) with
  | Some n => Some n
  | None => rev !! c
  end.
Proof.
  induction ks as [|k ks IH] using rev_ind; [reflexivity|].
  rewrite foldl_app, filter_app. cbn [foldl].
  destruct (tbl !! k) as [c'|] eqn:Hk.
  - destruct (decide (c' = c)) as [->|Hne].
    + rewrite lookup_insert_eq.
      rewrite (filter_cons_True _ k []) by done.
      rewrite filter_nil. by rewrite last_snoc.
    + rewrite lookup_insert_ne by done.
      rewrite (filter_cons_False _ k []) by congruence.
      rewrite filter_nil, app_nil_r. apply IH.
  - rewrite (filter_cons_False _ k []) by congruence.
    rewrite filter_nil, app_nil_r. apply IH.
Qed.

Lemma _reversePygletMap_lookup (c : string) :
  _reversePygletMap !! c = last (legacy_names c).
Proof.
  unfold _reversePygletMap, populate_reverse.
  change (Js.object_literal _pygletMap_literal) with _pygletMap.
  rewrite populate_loop_lookup, lookup_empty.
  unfold legacy_names. by destruct (last _).
Qed.

(** Every name stored in the reverse table is a key of [_pygletMap] for
    the code it is stored under, whether or not that code has several
    names. *)
Lemma _reversePygletMap_sound (c n : string) :
  _reversePygletMap !! c = Some n → _pygletMap !! n = Some c.
Proof.
  rewrite _reversePygletMap_lookup. intros Hlast.
  apply last_Some in Hlast as [l' Hl'].
  assert (n ∈ legacy_names c) as Hin.
  { rewrite Hl'. apply elem_of_app. right. by apply list_elem_of_singleton. }
  unfold legacy_names in Hin. by apply list_elem_of_filter in Hin as [? _].
Qed.

(** No two names of [_pygletMap] share a code: every entry of the table
    is the only one for its code. *)
Lemma pygletMap_no_collision :
  Forall (λ kv, legacy_names kv.2 = [kv.1]) _pygletMap_literal.
Proof. apply (bool_decide_unpack _). by vm_compute. Qed.

(** Running the constructor's loop a second time leaves the reverse table
    as the first run built it. *)
Lemma populate_reverse_idempotent :
  populate_reverse _pygletMap_literal _reversePygletMap = _reversePygletMap.
Proof.
  apply map_eq. intros c. unfold populate_reverse at 1.
  change (Js.object_literal _pygletMap_literal) with _pygletMap.
  rewrite populate_loop_lookup. fold (legacy_names c).
  rewrite _reversePygletMap_lookup. by destruct (last _).
Qed.

(** C5. For every standard code that exactly one legacy name is mapped to
    in [_pygletMap], looking the code up in the reverse table built by
    the constructor and passing the name found to [_pyglet2w3c] gives the
    code back. *)
Theorem toStandardCodes_toLegacyName (standardCode name : string) :
  legacy_names standardCode = [name] →
  (λ n, _pyglet2w3c [n]) <$> toLegacyName standardCode = Some [standardCode].
Proof.
  intros Huniq. unfold toLegacyName.
  pose proof (_reversePygletMap_lookup standardCode) as Hrev.
  rewrite Huniq in Hrev. cbn [last] in Hrev. rewrite Hrev.
  apply _reversePygletMap_sound in Hrev.
  cbn [fmap option_fmap option_map]. rewrite _pyglet2w3c_map.
  cbn [map]. unfold toStandardCode. by rewrite Hrev.
Qed.

Lemma toStandardCodes_toLegacyName_KeyA :
  legacy_names "KeyA" = ["a"] ∧
  (λ n, _pyglet2w3c [n]) <$> toLegacyName "KeyA" = Some ["KeyA"].
Proof.
  split; [vm_compute; reflexivity|].
  apply (toStandardCodes_toLegacyName "KeyA" "a"). vm_compute; reflexivity.
Defined.

End KeyNames.

(** ** Key names that Object.prototype knows *)

Module PrototypeReads.
Import EventManager Prototype.

(** A name that is a key of the table reads as its entry, and a name
    that [Object.prototype] does not know reads as the table has it. *)
Lemma get_plain (table : gmap string string) (k : string) :
  k ∉ object_prototype →
  get table k = Str <$> table !! k.
Proof.
  intros Hk. unfold get. destruct (table !! k); [reflexivity|].
  by rewrite bool_decide_eq_false_2.
Qed.

Lemma _pyglet2w3c_loop_plain (pygletKeyList acc : list string) :
  Forall (λ k, k ∉ object_prototype) pygletKeyList →
  Prototype._pyglet2w3c_loop pygletKeyList (Str <$> acc) =
    Str <$> EventManager._pyglet2w3c_loop pygletKeyList acc.
Proof.
  intros Hplain. revert acc.
  induction Hplain as [|k rest Hk _ IH]; intros acc; [reflexivity|].
  cbn [Prototype._pyglet2w3c_loop EventManager._pyglet2w3c_loop].
  rewrite (get_plain _ _ Hk).
  destruct (_pygletMap !! k) as [c|]; cbn [fmap option_fmap option_map];
    rewrite <- IH, fmap_app; reflexivity.
Qed.

(** On key lists that name no member of [Object.prototype] the reads
    through the prototype change nothing: the result is the one that the
    own properties of [_pygletMap] give. *)
Lemma _pyglet2w3c_plain (pygletKeyList : list string) :
  Forall (λ k, k ∉ object_prototype) pygletKeyList →
  Prototype._pyglet2w3c pygletKeyList = Str <$> EventManager._pyglet2w3c pygletKeyList.
Proof. apply (_pyglet2w3c_loop_plain pygletKeyList []). Qed.

(** C6. The key list [['a', 'constructor']] shows the code leaving what
    the claim says: ["constructor"] is no key of [_pygletMap], so that
    the second element of the result should be the name itself, but the
    read of [_pygletMap] finds the member [constructor] of
    [Object.prototype], which is not [undefined], and the function
    pushes that member: the result is [['KeyA', Object]], no list of
    strings. *)
Theorem pyglet2w3c_constructor :
  _pygletMap !! "constructor" = None ∧
  Prototype._pyglet2w3c ["a"; "constructor"] = [Str "KeyA"; Member "constructor"] ∧
  Prototype._pyglet2w3c ["a"; "constructor"] !! 1%nat ≠ Some (Str "constructor").
Proof.
  assert (Prototype._pyglet2w3c ["a"; "constructor"] = [Str "KeyA"; Member "constructor"])
    as Hrun by (vm_compute; reflexivity).
  split; [vm_compute; reflexivity | split; [exact Hrun|]].
  rewrite Hrun. discriminate.
Qed.

End PrototypeReads.

(** ** The key buffer *)

Module KeyBuffer.
Import EventManager Spec KeyNames.

Lemma indexOf_from_not_elem (i : Z) (a : list string) (x : string) :
  x ∉ a → Js.indexOf_from i a x = (-1)%Z.
Proof.
  revert i. induction a as [|y a IH]; intros i Hx; cbn [Js.indexOf_from]; [done|].
  apply not_elem_of_cons in Hx as [Hne Hx].
  rewrite bool_decide_eq_false_2 by congruence. by apply IH.
Qed.

Lemma indexOf_from_elem (i : Z) (a : list string) (x : string) :
  x ∈ a →
  ∃ n : nat, Js.indexOf_from i a x = (i + Z.of_nat n)%Z ∧ a !! n = Some x.
Proof.
  revert i. induction a as [|y a IH]; intros i Hx; [by apply elem_of_nil in Hx|].
  cbn [Js.indexOf_from]. case_bool_decide as Hy.
  - exists 0%nat. subst y. split; [lia | reflexivity].
  - apply elem_of_cons in Hx as [->|Hx]; [done|].
    destruct (IH (i + 1)%Z Hx) as (n & Hn & Hl).
    exists (S n). split; [lia | exact Hl].
Qed.

(** What the loop of [getKeys] does with the result of [indexOf]. *)
Lemma indexOf_in_filter (F : list string) (x : option string) :
  let index := Js.indexOf F x in
  match in_filter F x with
  | Some c => (0 ≤ index)%Z ∧ Js.at_index F index = Some c
  | None => index = (-1)%Z
  end.
Proof.
  destruct x as [x|]; cbn; [|reflexivity].
  case_bool_decide as Hx.
  - destruct (indexOf_from_elem 0 F x Hx) as (n & -> & Hl).
    split; [lia|]. unfold Js.at_index.
    rewrite (proj2 (Z.ltb_ge _ _)) by lia.
    by replace (Z.to_nat (0 + Z.of_nat n)) with n by lia.
  - by apply indexOf_from_not_elem.
Qed.

Lemma getKeys_keyId_filter (F : list string) (e : KeyEvent) :
  getKeys_keyId (Some F) e = matched_entry F e ≫= toLegacyName.
Proof.
  unfold getKeys_keyId, matched_entry, toLegacyName.
  pose proof (indexOf_in_filter F (code e)) as H1.
  pose proof (indexOf_in_filter F (_keycodeMap !! keyCode e)) as H2.
  cbv zeta in H1, H2.
  destruct (in_filter F (code e)) as [c|].
  - destruct H1 as [Hge Hat].
    rewrite (proj2 (Z.ltb_ge _ _)) by lia.
    rewrite (proj2 (Z.leb_le _ _)) by lia.
    rewrite Hat. reflexivity.
  - rewrite H1. change (-1 <? 0)%Z with true. cbv iota.
    destruct (in_filter F (_keycodeMap !! keyCode e)) as [c|].
    + destruct H2 as [Hge Hat].
      rewrite (proj2 (Z.leb_le _ _)) by lia.
      rewrite Hat. reflexivity.
    + rewrite H2. reflexivity.
Qed.

Lemma getKeys_keyId_no_filter (e : KeyEvent) :
  getKeys_keyId None e = code e ≫= toLegacyName.
Proof. unfold getKeys_keyId, toLegacyName. reflexivity. Qed.

Lemma omap_cons_match {A B} (f : A → option B) (x : A) (l : list A) :
  omap f (x :: l) = match f x with Some y => y :: omap f l | None => omap f l end.
Proof. reflexivity. Qed.

Lemma omap_pointwise {A B} (f g : A → option B) (l : list A) :
  (∀ x, f x = g x) → omap f l = omap g l.
Proof.
  intros Hfg. induction l as [|x l IH]; [reflexivity|].
  by rewrite !omap_cons_match, Hfg, IH.
Qed.

(** The loop of [getKeys] appends to [newBuffer] the events without a
    [keyId] and to [keys] the results of the others, both in buffer
    order. *)
Lemma getKeys_loop_spec (keyList : option (list string)) (timeStamped : bool)
    (buffer newBuffer : list KeyEvent) (keys : list KeyResult) :
  getKeys_loop keyList timeStamped buffer newBuffer keys =
    (newBuffer ++ filter (λ e, getKeys_keyId keyList e = None) buffer,
     keys ++ omap (λ e, key_result timeStamped e <$> getKeys_keyId keyList e) buffer).
Proof.
  revert newBuffer keys.
  induction buffer as [|e buffer IH]; intros newBuffer keys.
  - cbn. by rewrite !app_nil_r.
  - cbn [getKeys_loop]. rewrite omap_cons_match.
    destruct (getKeys_keyId keyList e) as [keyId|] eqn:He.
    + rewrite IH, filter_cons_False by (rewrite He; done).
      cbn [fmap option_fmap option_map]. by rewrite <- app_assoc.
    + rewrite IH, filter_cons_True by done.
      cbn [fmap option_fmap option_map]. by rewrite <- app_assoc.
Qed.

Lemma getKeys_spec (keyList : option (list string)) (timeStamped : bool)
    (self : EventManager) :
  let F := _pyglet2w3c <$> keyList in
  getKeys keyList timeStamped self =
    (omap (λ e, key_result timeStamped e <$> getKeys_keyId F e) (_keyBuffer self),
     set_keyBuffer (filter (λ e, getKeys_keyId F e = None) (_keyBuffer self)) self).
Proof. cbv zeta. unfold getKeys. by rewrite getKeys_loop_spec. Qed.

Lemma omap_filter_None {A B C} (f : A → option B) (g : A → B → C) (l : list A) :
  omap (λ x, g x <$> f x) (filter (λ x, f x = None) l) = [].
Proof.
  induction l as [|x l IH]; [reflexivity|].
  destruct (f x) as [y|] eqn:Hx.
  - by rewrite filter_cons_False by (rewrite Hx; done).
  - rewrite filter_cons_True by done. cbn. by rewrite Hx.
Qed.



(** C4. Whatever the buffer holds, [getKeys] without a filter and with
    [timeStamped = false], followed by a second [getKeys] without a
    filter (nothing being captured in between), returns an empty array
    the second time. *)
Theorem getKeys_second_drain_empty (self : EventManager) (timeStamped : bool) :
  (getKeys None timeStamped (getKeys None false self).2).1 = [].
Proof.
  rewrite !getKeys_spec. cbn [fst snd fmap option_fmap option_map].
  unfold set_keyBuffer at 1. cbn [_keyBuffer].
  apply omap_filter_None.
Qed.

(** What the first call leaves behind: the events whose code has no
    legacy name stay in the buffer, which [getKeys] alone therefore does
    not empty. *)
Lemma getKeys_no_filter_keeps_unnamed :
  let self := keydown press_F1 5000 (constructor 0) in
  getKeys None false self = ([], self).
Proof. vm_compute. reflexivity. Qed.

(** C10. [clearEvents] does not look at its argument: for every value of
    it the result is that of [clearKeys], in which the key buffer is
    empty and the mouse information (position, wheel, buttons, clocks)
    is the one before the call. *)
Theorem clearEvents_is_clearKeys (A : Type) (attribs : A) (self : EventManager) :
  clearEvents attribs self = clearKeys self ∧
  _keyBuffer (clearEvents attribs self) = [] ∧
  _mouseInfo (clearEvents attribs self) = _mouseInfo self.
Proof. repeat split. Qed.

End KeyBuffer.

(** ** The mouse listeners *)

Module Pointer.
Import EventManager Spec.

Lemma array_set_lookup {A} (i : nat) (v : A) (a : list (option A)) :
  Js.array_set i v a !! i = Some (Some v).
Proof.
  unfold Js.array_set. destruct (Nat.ltb_spec i (length a)) as [Hlt|Hge].
  - by apply list_lookup_insert_eq.
  - rewrite lookup_app_r by done. rewrite lookup_app_r; rewrite length_replicate; [|done].
    by rewrite Nat.sub_diag.
Qed.

(** Both button listeners have the same shape; one script settles what
    each does for a button with a clock and for one without. *)
Ltac button_listener listener Hclock :=
  unfold button_clocks in Hclock; unfold listener;
  cbn [clocks set_pressed]; rewrite Hclock;
  eexists; split; [reflexivity|];
  unfold button_times, button_pressed, button_clocks; cbn;
  by rewrite ?array_set_lookup.

(** A button that has a clock: the listener returns, the elapsed time of
    the button is the clock reading minus the last reset time of its
    clock, and no clock has changed. *)
Lemma pointerdown_done (event : PointerEvent) (now : Q)
    (self : EventManager) (clock : Clock) :
  button_clocks self !! button event = Some clock →
  ∃ self' : EventManager,
    pointerdown event now self = Js.Done self' ∧
    button_times self' !! button event = Some (Some (now - getLastResetTime clock)%Q) ∧
    button_pressed self' !! button event = Some (Some 1%Z) ∧
    button_clocks self' = button_clocks self ∧
    pos (_mouseInfo self') = (offsetX event, offsetY event).
Proof. intros Hclock. button_listener pointerdown Hclock. Qed.

Lemma pointerup_done (event : PointerEvent) (now : Q)
    (self : EventManager) (clock : Clock) :
  button_clocks self !! button event = Some clock →
  ∃ self' : EventManager,
    pointerup event now self = Js.Done self' ∧
    button_times self' !! button event = Some (Some (now - getLastResetTime clock)%Q) ∧
    button_pressed self' !! button event = Some (Some 0%Z) ∧
    button_clocks self' = button_clocks self ∧
    pos (_mouseInfo self') = (offsetX event, offsetY event).
Proof. intros Hclock. button_listener pointerup Hclock. Qed.

(** A button without a clock (the fourth button of a mouse, say): the
    listener has written [pressed] and throws on reading the clock. *)
Lemma pointerdown_throws (event : PointerEvent) (now : Q) (self : EventManager) :
  button_clocks self !! button event = None →
  ∃ self' : EventManager,
    pointerdown event now self = Js.Threw self' ∧
    button_pressed self' !! button event = Some (Some 1%Z) ∧
    button_times self' = button_times self ∧
    pos (_mouseInfo self') = pos (_mouseInfo self).
Proof. intros Hclock. button_listener pointerdown Hclock. Qed.

Lemma pointerup_throws (event : PointerEvent) (now : Q) (self : EventManager) :
  button_clocks self !! button event = None →
  ∃ self' : EventManager,
    pointerup event now self = Js.Threw self' ∧
    button_pressed self' !! button event = Some (Some 0%Z) ∧
    button_times self' = button_times self ∧
    pos (_mouseInfo self') = pos (_mouseInfo self).
Proof. intros Hclock. button_listener pointerup Hclock. Qed.

Example pointerdown_fourth_button :
  pointerdown {| button := 3; offsetX := 10; offsetY := 20 |} 1 (constructor 0) =
    Js.Threw
      (set_mouseInfo
         (set_buttons
            (set_pressed [Some 0; Some 0; Some 0; Some 1]%Z
               (buttons (_mouseInfo (constructor 0))))
            (_mouseInfo (constructor 0)))
         (constructor 0)).
Proof. reflexivity. Qed.

(** C8. For every button [b] that has a clock and all clock readings
    [t1 < t2]: the [pointerdown] listener at [t1] followed by the
    [pointerup] listener at [t2] both return, the elapsed time stored
    for [b] is [t1] minus the last reset time of the clock of [b] after
    the first and [t2] minus that same last reset time after the second,
    and the clocks are after each listener what they were before: neither
    transition resets one. *)
Theorem down_up_elapsed (b : nat) (t1 t2 : Q) (down_pos up_pos : Q * Q)
    (self : EventManager) (clock : Clock) :
  button_clocks self !! b = Some clock →
  (t1 < t2)%Q →
  ∃ self1 self2 : EventManager,
    pointerdown {| button := b; offsetX := down_pos.1; offsetY := down_pos.2 |} t1 self
      = Js.Done self1 ∧
    pointerup {| button := b; offsetX := up_pos.1; offsetY := up_pos.2 |} t2 self1
      = Js.Done self2 ∧
    button_times self1 !! b = Some (Some (t1 - getLastResetTime clock)%Q) ∧
    button_times self2 !! b = Some (Some (t2 - getLastResetTime clock)%Q) ∧
    button_clocks self1 = button_clocks self ∧
    button_clocks self2 = button_clocks self.
Proof.
  intros Hclock _.
  destruct (pointerdown_done {| button := b; offsetX := down_pos.1; offsetY := down_pos.2 |}
              t1 self clock Hclock) as (self1 & Hdown & Ht1 & _ & Hc1 & _).
  cbn [button] in *.
  assert (button_clocks self1 !! b = Some clock) as Hclock1 by (by rewrite Hc1).
  destruct (pointerup_done {| button := b; offsetX := up_pos.1; offsetY := up_pos.2 |}
              t2 self1 clock Hclock1) as (self2 & Hup & Ht2 & _ & Hc2 & _).
  cbn [button] in *.
  exists self1, self2. repeat split; try assumption.
  by rewrite Hc2.
Qed.

Lemma down_up_elapsed_left_button :
  ∃ self1 self2 : EventManager,
    pointerdown {| button := 0; offsetX := 3; offsetY := 4 |} 1 (constructor (1 # 2))
      = Js.Done self1 ∧
    pointerup {| button := 0; offsetX := 3; offsetY := 4 |} (6 # 5) self1
      = Js.Done self2 ∧
    button_times self1 !! 0%nat = Some (Some (1 - (1 # 2))%Q) ∧
    button_times self2 !! 0%nat = Some (Some ((6 # 5) - (1 # 2))%Q) ∧
    button_clocks self1 = button_clocks (constructor (1 # 2)) ∧
    button_clocks self2 = button_clocks (constructor (1 # 2)).
Proof.
  apply (down_up_elapsed 0 1 (6 # 5) (3, 4)%Q (3, 4)%Q
           (constructor (1 # 2)) {| lastResetTime := 1 # 2 |}).
  - reflexivity.
  - reflexivity.
Defined.

End Pointer.

(** ** The render loop *)

Module RenderLoop.
Import Window Spec.

Section Generic.
Context {Obj Arg Fn StimData : Type}.

Local Abbreviation Store := (Window.Store Obj Arg Fn StimData).
Local Abbreviation Event := (Window.Event Obj Arg Fn).

Variable stim_updateIfNeeded : Stim StimData → Stim StimData.
Variable invoke : Fn → list Arg → Store → Store.

Lemma for_each_emit {A} (f : A → Event) (l : list A) (s : Store) :
  for_each l (λ x, emit (f x)) s = (map f l, s, Return ()).
Proof.
  induction l as [|x l IH]; [reflexivity|].
  cbn [for_each]. unfold bind at 1. cbn. by rewrite IH.
Qed.

Lemma bind_run {A B} (m : M A) (k : A → M B) (s : Store) :
  bind m k s =
    match m s with
    | (tr, s', Return a) => let '(tr', s'', r) := k a s' in (tr ++ tr', s'', r)
    | (tr, s', Throw) => (tr, s', Throw)
    end.
Proof. reflexivity. Qed.

Lemma for_each_cons_run {A} (body : A → M unit) (x : A) (l : list A) (s : Store) :
  for_each (x :: l) body s =
    match body x s with
    | (tr, s', Return _) =>
        let '(tr', s'', r) := for_each l body s' in (tr ++ tr', s'', r)
    | (tr, s', Throw) => (tr, s', Throw)
    end.
Proof. reflexivity. Qed.


Lemma _writeLogOnFlip_run (logTime : Q) (s : Store) :
  _writeLogOnFlip logTime s =
    (map (log_event logTime) (_msgToBeLogged (window s)),
     update_window clear_log s,
     Return ()).
Proof.
  pose proof (for_each_emit (log_event logTime) (_msgToBeLogged (window s)) s) as Hloop.
  unfold log_event in Hloop.
  unfold _writeLogOnFlip, bind, gets. rewrite Hloop.
  cbn. by rewrite !app_nil_r.
Qed.

Lemma _updateIfNeeded_run (s : Store) :
  _updateIfNeeded s =
    if _needUpdate (window s)
    then ([SetBackgroundColor (_color (window s))],
          update_window clear_needUpdate s, Return ())
    else ([], s, Return ()).
Proof.
  unfold _updateIfNeeded, bind, gets. cbn.
  by destruct (_needUpdate (window s)).
Qed.

Lemma refresh_stim_run (ref : nat) (s : Store) :
  refresh_stim stim_updateIfNeeded ref s =
    match stims s !! ref with
    | Some stim =>
        if stim_needUpdate stim
        then (update_block stim_updateIfNeeded ref stim,
              update_stim ref stim_updateIfNeeded s, Return ())
        else ([], s, Return ())
    | None => ([], s, Return ())
    end.
Proof.
  unfold refresh_stim, bind, gets. cbn.
  destruct (stims s !! ref) as [stim|] eqn:Hstim; [|reflexivity].
  destruct (stim_needUpdate stim); [|reflexivity].
  cbn. rewrite lookup_alter_eq, Hstim. reflexivity.
Qed.

Lemma Forall_update_block (ref : nat) (stim : Stim StimData) :
  Forall refresh_event (update_block stim_updateIfNeeded ref stim : list Event).
Proof. repeat constructor. Qed.

(** The loop of [_refresh] returns, makes only calls of the refresh,
    does not write to the window, and leaves alone the stimuli that
    are not in the list. *)
Lemma refresh_loop_frame (l : list nat) (s : Store) :
  let r := for_each l (refresh_stim stim_updateIfNeeded) s in
  result r = Return () ∧
  Forall refresh_event (trace r) ∧
  window (store r) = window s ∧
  ∀ ref, ref ∉ l → stims (store r) !! ref = stims s !! ref.
Proof.
  cbv zeta. revert s. induction l as [|x l IH]; intros s.
  - cbn. repeat split; constructor.
  - rewrite for_each_cons_run, refresh_stim_run.
    destruct (stims s !! x) as [stim|] eqn:Hstim;
      [destruct (stim_needUpdate stim)|].
    + specialize (IH (update_stim x stim_updateIfNeeded s)).
      destruct (for_each l _ _) as [[tr s'] r]. cbn in *.
      destruct IH as (Hr & Htr & Hw & Hst). repeat split; try done.
      * by repeat constructor.
      * intros ref [Hne Hnotin]%not_elem_of_cons.
        rewrite Hst by done. by apply lookup_alter_ne.
    + specialize (IH s).
      destruct (for_each l _ _) as [[tr s'] r]. cbn in *.
      destruct IH as (Hr & Htr & Hw & Hst). repeat split; try done.
      intros ref [Hne Hnotin]%not_elem_of_cons. by apply Hst.
    + specialize (IH s).
      destruct (for_each l _ _) as [[tr s'] r]. cbn in *.
      destruct IH as (Hr & Htr & Hw & Hst). repeat split; try done.
      intros ref [Hne Hnotin]%not_elem_of_cons. by apply Hst.
Qed.

(** A flagged stimulus of the list is brought up to date by the loop,
    from the state in which the loop found it. *)
Lemma refresh_loop_updates (l : list nat) (s : Store) (ref : nat) (stim : Stim StimData) :
  ref ∈ l →
  stims s !! ref = Some stim →
  stim_needUpdate stim = true →
  ∃ pre post,
    trace (for_each l (refresh_stim stim_updateIfNeeded) s) =
      pre ++ update_block stim_updateIfNeeded ref stim ++ post.
Proof.
  revert s. induction l as [|x l IH]; intros s Hin Hstim Hflag;
    [by apply elem_of_nil in Hin|].
  rewrite for_each_cons_run, refresh_stim_run.
  destruct (decide (x = ref)) as [->|Hne].
  - rewrite Hstim, Hflag.
    destruct (for_each l _ _) as [[tr s'] r]. cbn.
    exists [], tr. reflexivity.
  - apply elem_of_cons in Hin as [?|Hin]; [congruence|].
    destruct (stims s !! x) as [stimx|] eqn:Hx;
      [destruct (stim_needUpdate stimx)|].
    + destruct (IH (update_stim x stim_updateIfNeeded s) Hin) as (pre & post & Htr);
        [by cbn; rewrite lookup_alter_ne | done |].
      destruct (for_each l _ _) as [[tr s'] r]. cbn in *.
      exists (update_block stim_updateIfNeeded x stimx ++ pre), post.
      rewrite Htr. by rewrite <- app_assoc.
    + destruct (IH s Hin Hstim Hflag) as (pre & post & Htr).
      destruct (for_each l _ _) as [[tr s'] r]. cbn in *.
      by exists pre, post.
    + destruct (IH s Hin Hstim Hflag) as (pre & post & Htr).
      destruct (for_each l _ _) as [[tr s'] r]. cbn in *.
      by exists pre, post.
Qed.

Lemma _refresh_run (s : Store) :
  _refresh stim_updateIfNeeded s =
    let s0 := if _needUpdate (window s)
              then update_window clear_needUpdate s else s in
    let bg := if _needUpdate (window s)
              then [SetBackgroundColor (_color (window s))] else [] in
    let r := for_each (_drawList (window s)) (refresh_stim stim_updateIfNeeded) s0 in
    (bg ++ trace r, store r, result r).
Proof.
  unfold _refresh, bind at 1. rewrite _updateIfNeeded_run.
  destruct (_needUpdate (window s)); unfold bind, gets; cbn;
    by destruct (for_each _ _ _) as [[tr s'] r].
Qed.

Lemma _refresh_frame (s : Store) :
  let r := _refresh stim_updateIfNeeded s in
  result r = Return () ∧
  Forall refresh_event (trace r) ∧
  registration (store r) = registration s ∧
  _msgToBeLogged (window (store r)) = _msgToBeLogged (window s).
Proof.
  cbv zeta. rewrite _refresh_run. cbv zeta.
  destruct (refresh_loop_frame (_drawList (window s))
              (if _needUpdate (window s)
               then update_window clear_needUpdate s else s))
    as (Hr & Htr & Hw & _).
  destruct (for_each _ _ _) as [[tr s'] r]. cbn in *.
  unfold registration. rewrite Hw.
  destruct (_needUpdate (window s)); repeat split; try done.
  by constructor.
Qed.

Lemma _refresh_updates (s : Store) (ref : nat) (stim : Stim StimData) :
  ref ∈ _drawList (window s) →
  stims s !! ref = Some stim →
  stim_needUpdate stim = true →
  ∃ pre post,
    trace (_refresh stim_updateIfNeeded s) =
      pre ++ update_block stim_updateIfNeeded ref stim ++ post.
Proof.
  intros Hin Hstim Hflag. rewrite _refresh_run. cbv zeta.
  destruct (refresh_loop_updates (_drawList (window s))
              (if _needUpdate (window s)
               then update_window clear_needUpdate s else s)
              ref stim Hin) as (pre & post & Htr);
    [by destruct (_needUpdate (window s)) | done |].
  destruct (for_each _ _ _) as [[tr s'] r]. cbn in *. rewrite Htr.
  eexists (_ ++ pre), post. by rewrite <- app_assoc.
Qed.

(** [render], statement by statement. *)
Lemma render_run (logTime : Q) (s : Store) :
  let s1 := update_window (λ w, clear_log (bump_frameCount w)) s in
  let logs := map (log_event logTime) (_msgToBeLogged (window s)) in
  render stim_updateIfNeeded invoke logTime s =
    match _flipCallback (window s) with
    | None =>
        let r := _refresh stim_updateIfNeeded s1 in
        (RendererRender :: GlReadPixels :: logs ++ trace r, store r, result r)
    | Some f =>
        match _flipCallbackArgs (window s) with
        | Some args =>
            let r := _refresh stim_updateIfNeeded (invoke f args s1) in
            (RendererRender :: GlReadPixels :: logs ++ FlipCallback f args :: trace r,
             store r, result r)
        | None => (RendererRender :: GlReadPixels :: logs, s1, Throw)
        end
    end.
Proof.
  cbv zeta. unfold render.
  repeat (rewrite ?_writeLogOnFlip_run, ?bind_run; cbn [modify emit gets ret throw]).
  cbn [window update_window clear_log _flipCallback _flipCallbackArgs _msgToBeLogged].
  destruct (_flipCallback (window s)) as [f|].
  - rewrite bind_run. cbn [gets window update_window clear_log _flipCallbackArgs].
    destruct (_flipCallbackArgs (window s)) as [args|].
    + rewrite bind_run. cbn [emit modify].
      destruct (_refresh _ _) as [[tr s'] r]. reflexivity.
    + cbn. by rewrite !app_nil_r.
  - cbn [ret]. destruct (_refresh _ _) as [[tr s'] r]. reflexivity.
Qed.

Lemma refresh_events_only (tr : list Event) :
  Forall refresh_event tr →
  flip_calls tr = [] ∧ log_times tr = [] ∧ RendererRender ∉ tr.
Proof.
  induction 1 as [|ev tr Hev _ (IH1 & IH2 & IH3)].
  - repeat split. apply not_elem_of_nil.
  - destruct ev; try done; cbn; repeat split; try done;
      apply not_elem_of_cons; by split.
Qed.

Lemma log_events_only (logTime : Q) (entries : list (LogEntry Obj)) :
  flip_calls (map (@log_event Obj Arg Fn logTime) entries) = [] ∧
  log_times (map (@log_event Obj Arg Fn logTime) entries)
    = replicate (length entries) logTime ∧
  RendererRender ∉ map (@log_event Obj Arg Fn logTime) entries.
Proof.
  induction entries as [|e entries (IH1 & IH2 & IH3)].
  - repeat split. apply not_elem_of_nil.
  - cbn. repeat split; [done | by rewrite <- IH2 |].
    apply not_elem_of_cons. by split.
Qed.

(** The render call opens the trace of a tick and occurs in it once. *)
Lemma render_call_first (logTime : Q) (s : Store) :
  ∃ tl,
    trace (render stim_updateIfNeeded invoke logTime s) = RendererRender :: tl ∧
    RendererRender ∉ tl.
Proof.
  rewrite render_run. cbv zeta.
  destruct (log_events_only logTime (_msgToBeLogged (window s))) as (_ & _ & Hlogs).
  destruct (_flipCallback (window s)) as [f|];
    [destruct (_flipCallbackArgs (window s)) as [args|]|].
  - destruct (_refresh_frame (invoke f args
                (update_window (λ w, clear_log (bump_frameCount w)) s)))
      as (_ & Htr & _).
    apply refresh_events_only in Htr as (_ & _ & Htr).
    eexists. split; [reflexivity|].
    rewrite not_elem_of_cons, not_elem_of_app, not_elem_of_cons. done.
  - eexists. split; [reflexivity|].
    rewrite not_elem_of_cons. done.
  - destruct (_refresh_frame (update_window (λ w, clear_log (bump_frameCount w)) s))
      as (_ & Htr & _).
    apply refresh_events_only in Htr as (_ & _ & Htr).
    eexists. split; [reflexivity|].
    rewrite not_elem_of_cons, not_elem_of_app. done.
Qed.


(** C1, amended.  In every tick in which a flip callback is registered
    and is not registered anew during the tick, [render] returns and
    calls the callback exactly once, with the arguments stored with
    it; the registration is still in place afterwards, and the next
    tick, with no new registration, calls the same callback with the
    same arguments once more. *)
Theorem flip_callback_every_tick (logTime logTime' : Q) (s : Store)
    (f : Fn) (args : list Arg) :
  registration s = (Some f, Some args) →
  keeps_registration invoke →
  let tick := render stim_updateIfNeeded invoke logTime s in
  let next := render stim_updateIfNeeded invoke logTime' (store tick) in
  result tick = Return () ∧
  flip_calls (trace tick) = [(f, args)] ∧
  registration (store tick) = (Some f, Some args) ∧
  flip_calls (trace next) = [(f, args)].
Proof.
  intros Hreg Hkeeps.
  assert (∀ t s0, registration s0 = (Some f, Some args) →
            let tick := render stim_updateIfNeeded invoke t s0 in
            result tick = Return () ∧
            flip_calls (trace tick) = [(f, args)] ∧
            registration (store tick) = (Some f, Some args)) as Htick.
  { clear s Hreg. intros t s Hreg. cbv zeta. rewrite render_run. cbv zeta.
    injection Hreg as Hf Hargs. rewrite Hf, Hargs.
    match goal with |- context [_refresh _ ?s0] =>
      destruct (_refresh_frame s0) as (Hr & Htr & Hreg' & _) end.
    apply refresh_events_only in Htr as (Htr & _ & _).
    destruct (log_events_only t (_msgToBeLogged (window s))) as (Hlogs & _ & _).
    cbn [trace store result fst snd]. repeat split.
    - exact Hr.
    - change (RendererRender :: GlReadPixels :: ?l) with ([RendererRender; GlReadPixels] ++ l).
      unfold flip_calls in *. rewrite omap_app, omap_app, Hlogs. cbn.
      by rewrite Htr.
    - rewrite Hreg', Hkeeps. unfold registration. cbn. by rewrite Hf, Hargs. }
  cbv zeta.
  destruct (Htick logTime s Hreg) as (Hr & Hcalls & Hreg1).
  destruct (Htick logTime' _ Hreg1) as (_ & Hcalls' & _).
  done.
Qed.

(** C2, amended.  In every tick in which [render] returns and the flip
    callback leaves the stimuli alone, the render call comes first,
    followed by the read-back, the flush of the log queue and the call
    of the flip callback; each drawable of the draw list whose
    [_needUpdate] flag is set is detached, has its update applied and
    is reattached after all of these, by the [_refresh] that ends the
    tick, whose calls are all that follows: the update is in place for
    the render call of the next tick, not for this one. *)
Theorem refresh_after_render (logTime : Q) (s : Store) (ref : nat)
    (stim : Stim StimData) :
  ref ∈ _drawList (window s) →
  stims s !! ref = Some stim →
  stim_needUpdate stim = true →
  keeps_stimuli invoke →
  let tick := render stim_updateIfNeeded invoke logTime s in
  result tick = Return () →
  updated_after_render stim_updateIfNeeded logTime s (trace tick) ref stim.
Proof.
  intros Hin Hstim Hflag Hkeeps. cbv zeta.
  unfold updated_after_render, flip_events.
  rewrite render_run. cbv zeta.
  set (s1 := update_window (λ w, clear_log (bump_frameCount w)) s).
  destruct (_flipCallback (window s)) as [f|] eqn:Hf;
    [destruct (_flipCallbackArgs (window s)) as [args|] eqn:Hargs|].
  - destruct (Hkeeps f args s1) as [Hst Hdl].
    destruct (_refresh_updates (invoke f args s1) ref stim) as (pre & post & Htr);
      [by rewrite Hdl | by rewrite Hst | done |].
    destruct (_refresh_frame (invoke f args s1)) as (Hr & Hev & _).
    cbn [trace store result fst snd] in *. rewrite Htr in Hev |- *.
    intros _. exists pre, post. split; [reflexivity | exact Hev].
  - cbn [result snd]. discriminate.
  - destruct (_refresh_updates s1 ref stim) as (pre & post & Htr); [done..|].
    destruct (_refresh_frame s1) as (Hr & Hev & _).
    cbn [trace store result fst snd] in *. rewrite Htr in Hev |- *.
    intros _. exists pre, post. split; [reflexivity | exact Hev].
Qed.

End Generic.

(** A tick of the small experiment with a registered callback: the
    callback is called, and is still registered. *)
Example tick_with_callback :
  render apply_update no_effect 0 with_callback =
    ([RendererRender; GlReadPixels; FlipCallback "resetClock" [1; 2]%Z],
     update_window bump_frameCount with_callback,
     Return ()).
Proof. vm_compute. reflexivity. Qed.

(** C1, as the design document has it, fails: after the tick that calls
    ["resetClock"] the registration is still in place, and the next tick
    calls ["resetClock"] again. *)
Lemma flip_callback_not_one_shot :
  ¬ one_shot apply_update no_effect 0 1 with_callback ∧
  registration (store (render apply_update no_effect 0 with_callback))
    = (Some "resetClock", Some [1; 2]%Z) ∧
  flip_calls
    (trace (render apply_update no_effect 1
              (store (render apply_update no_effect 0 with_callback))))
    = [("resetClock", [1; 2]%Z)].
Proof.
  split; [|split].
  - intros [Hreg _]. vm_compute in Hreg. discriminate Hreg.
  - vm_compute. reflexivity.
  - vm_compute. reflexivity.
Qed.

Lemma flip_callback_every_tick_resetClock :
  let tick := render apply_update no_effect 0 with_callback in
  let next := render apply_update no_effect 1 (store tick) in
  result tick = Return () ∧
  flip_calls (trace tick) = [("resetClock", [1; 2]%Z)] ∧
  registration (store tick) = (Some "resetClock", Some [1; 2]%Z) ∧
  flip_calls (trace next) = [("resetClock", [1; 2]%Z)].
Proof.
  apply (flip_callback_every_tick apply_update no_effect 0 1 with_callback
           "resetClock" [1; 2]%Z).
  - reflexivity.
  - intros f args s. reflexivity.
Defined.

(** A tick of the small experiment with a flagged stimulus: the render
    call is made with the stimulus still flagged, the update follows. *)
Example tick_with_flagged_stim :
  trace (render apply_update no_effect 0 one_flagged_stim) =
    [RendererRender; GlReadPixels; RemoveChild 7; StimUpdateIfNeeded 0; AddChild 7].
Proof. vm_compute. reflexivity. Qed.

(** C2, as the design document has it, fails: in a tick that starts with
    the stimulus 0 flagged, no update of that stimulus comes before the
    render call. *)
Lemma refresh_not_before_render :
  stim_needUpdate <$> stims one_flagged_stim !! 0%nat = Some true ∧
  ¬ updated_before_render
      (trace (render apply_update no_effect 0 one_flagged_stim)) 0.
Proof.
  split; [vm_compute; reflexivity|].
  rewrite tick_with_flagged_stim. intros (i & j & Hi & Hj & Hlt).
  destruct j as [|j]; [lia|].
  do 5 (destruct j as [|j]; [discriminate Hj|]). discriminate Hj.
Qed.

Lemma refresh_after_render_flagged_stim :
  let tick := render apply_update no_effect 0 one_flagged_stim in
  result tick = Return () ∧
  updated_after_render apply_update 0 one_flagged_stim (trace tick) 0
    {| stim_needUpdate := true; _pixi := 7%nat; stim_data := () |}.
Proof.
  cbv zeta. split; [vm_compute; reflexivity|].
  apply (refresh_after_render apply_update no_effect 0 one_flagged_stim 0
           {| stim_needUpdate := true; _pixi := 7%nat; stim_data := () |}).
  - vm_compute. apply list_elem_of_here.
  - vm_compute. reflexivity.
  - reflexivity.
  - intros f args s. split; reflexivity.
  - vm_compute. reflexivity.
Defined.

End RenderLoop.

(** ** The two streams of timestamps *)

Module Timestamps.
Import EventManager Window Spec.

(** C9. The key event that the [keydown] listener buffers carries the
    reference time read by the listener divided by 1000, while every
    entry flushed by [_writeLogOnFlip] is handed to the logger with the
    reference time as read, undivided; for one and the same reading the
    key timestamp is therefore each of the log times divided by 1000.
    The division is the one the listener performs: no law of arithmetic
    enters the statement. *)
Theorem key_and_log_timestamps {Obj Arg Fn StimData : Type} (referenceTime : Q)
    (e : KeyboardEvent) (self : EventManager) (s : Store Obj Arg Fn StimData) :
  let key_event := last (_keyBuffer (keydown e referenceTime self)) in
  let log_stamps := log_times (trace (_writeLogOnFlip referenceTime s)) in
  key_event =
    Some {| code := e_code e; key := e_key e; keyCode := e_keyCode e;
            timestamp := (referenceTime / 1000)%Q |} ∧
  log_stamps = replicate (length (_msgToBeLogged (window s))) referenceTime ∧
  Forall (λ logTime, timestamp <$> key_event = Some (logTime / 1000)%Q) log_stamps.
Proof.
  cbv zeta.
  assert (last (_keyBuffer (keydown e referenceTime self)) =
            Some {| code := e_code e; key := e_key e; keyCode := e_keyCode e;
                    timestamp := (referenceTime / 1000)%Q |}) as Hkey
    by (unfold keydown, set_keyBuffer; cbn [_keyBuffer]; apply last_snoc).
  assert (log_times (trace (_writeLogOnFlip referenceTime s)) =
            replicate (length (_msgToBeLogged (window s))) referenceTime) as Hlog
    by (rewrite RenderLoop._writeLogOnFlip_run; cbn [trace fst];
        apply RenderLoop.log_events_only).
  split; [exact Hkey | split; [exact Hlog|]].
  rewrite Hkey, Hlog. apply Forall_replicate. reflexivity.
Qed.

End Timestamps.

(** * Further properties *)

(** ** Further properties of the key-name tables *)

Module KeyTableFacts.
Import EventManager Spec Vocabulary KeyNames.

Lemma object_literal_lookup_elem {V} (l : list (string * V)) (k : string) (v : V) :
  Js.object_literal l !! k = Some v → (k, v) ∈ l.
Proof.
  unfold Js.object_literal.
  induction l as [|[k' v'] l IH] using rev_ind; [cbn; by rewrite lookup_empty|].
  rewrite foldl_app. cbn. intros Hlookup. apply elem_of_app.
  destruct (decide (k' = k)) as [->|Hne].
  - rewrite lookup_insert_eq in Hlookup. injection Hlookup as ->.
    right. by apply list_elem_of_singleton.
  - rewrite lookup_insert_ne in Hlookup by done. left. by apply IH.
Qed.

(** X1. Whatever the table and the reverse table it starts from, the
    constructor's loop leaves under each code the last of the names
    mapped to that code that [for ... in] visits (array-index names
    first, then the others in the order of the literal), and leaves
    alone the codes that no name maps to. *)
Theorem populate_reverse_last_wins (tbl : list (string * string))
    (rev : gmap string string) (c : string) :
  populate_reverse tbl rev !! c =
    match last (filter (λ n, Js.object_literal tbl !! n = Some c) (Js.for_in tbl)) with
    | Some n => Some n
    | None => rev !! c
    end.
Proof. unfold populate_reverse. apply populate_loop_lookup. Qed.

(** X2. Constructing a second manager changes nothing in the reverse
    table: for every table, the constructor's loop run on its own
    result gives that result back. *)
Theorem populate_reverse_twice (tbl : list (string * string))
    (rev : gmap string string) :
  populate_reverse tbl (populate_reverse tbl rev) = populate_reverse tbl rev.
Proof.
  apply map_eq. intros c. unfold populate_reverse at 1.
  rewrite populate_loop_lookup.
  destruct (last _) as [n|] eqn:Hlast; [|reflexivity].
  unfold populate_reverse. by rewrite populate_loop_lookup, Hlast.
Qed.

Lemma pygletMap_values_are_not_names :
  Forall (λ kv, _pygletMap !! kv.2 = None) _pygletMap_literal.
Proof. apply (bool_decide_unpack _). by vm_compute. Qed.

Lemma pygletMap_lookup_elem (n c : string) :
  _pygletMap !! n = Some c → (n, c) ∈ _pygletMap_literal.
Proof. apply object_literal_lookup_elem. Qed.

Lemma reverse_complete (n c : string) :
  _pygletMap !! n = Some c → _reversePygletMap !! c = Some n.
Proof.
  intros Hin%pygletMap_lookup_elem.
  pose proof pygletMap_no_collision as Hall.
  rewrite Forall_forall in Hall. specialize (Hall _ Hin). cbn [fst snd] in Hall.
  by rewrite _reversePygletMap_lookup, Hall.
Qed.

(** X3. The reverse table is the inverse of [_pygletMap]: a code is
    stored with the name [n] exactly when the table maps [n] to that
    code, so that every pyglet name comes back from its code. *)
Theorem reverse_is_inverse (n c : string) :
  _reversePygletMap !! c = Some n ↔ _pygletMap !! n = Some c.
Proof. split; [apply _reversePygletMap_sound | apply reverse_complete]. Qed.

Lemma toStandardCode_idem (k : string) :
  toStandardCode (toStandardCode k) = toStandardCode k.
Proof.
  unfold toStandardCode.
  destruct (_pygletMap !! k) as [c|] eqn:Hk; unfold default, id; cbn [from_option].
  - apply pygletMap_lookup_elem in Hk.
    pose proof pygletMap_values_are_not_names as Hall.
    rewrite Forall_forall in Hall. specialize (Hall _ Hk). cbn [fst snd] in Hall.
    by rewrite Hall.
  - by rewrite Hk.
Qed.

(** X4. Normalising a key list twice is normalising it once: no W3C
    code of the table is itself a pyglet name, so [_pyglet2w3c] leaves
    its own output, and any list of W3C codes of the table, as it is. *)
Theorem pyglet2w3c_idempotent (keyList : list string) :
  _pyglet2w3c (_pyglet2w3c keyList) = _pyglet2w3c keyList.
Proof.
  rewrite !_pyglet2w3c_map. rewrite map_map.
  apply map_ext. intros k. apply toStandardCode_idem.
Qed.

End KeyTableFacts.

(** ** The key list, read through Object.prototype *)

Module PrototypeFacts.
Import EventManager Vocabulary.

Lemma _pyglet2w3c_loop_pushed (pygletKeyList : list string)
    (w3cKeyList : list Prototype.Value) :
  Prototype._pyglet2w3c_loop pygletKeyList w3cKeyList =
    w3cKeyList ++ map pushed pygletKeyList.
Proof.
  revert w3cKeyList.
  induction pygletKeyList as [|name rest IH]; intros w3cKeyList.
  - by rewrite app_nil_r.
  - cbn [Prototype._pyglet2w3c_loop map]. unfold Prototype.get, pushed at 1.
    destruct (_pygletMap !! name) as [c|]; [|case_bool_decide];
      rewrite IH, <- app_assoc; reflexivity.
Qed.

(** X31. With the reads of [_pygletMap] as the code makes them, through
    [Object.prototype], [_pyglet2w3c] returns for every key list a list
    of the same length and in the same order, whose i-th element is the
    entry of the table when the i-th name is a key of the table, the
    inherited member when it is the name of a member of
    [Object.prototype], and the i-th name itself otherwise. *)
Theorem pyglet2w3c_through_prototype (pygletKeyList : list string) :
  length (Prototype._pyglet2w3c pygletKeyList) = length pygletKeyList ∧
  ∀ i : nat, Prototype._pyglet2w3c pygletKeyList !! i = pushed <$> pygletKeyList !! i.
Proof.
  unfold Prototype._pyglet2w3c. rewrite _pyglet2w3c_loop_pushed. cbn [app].
  split; [apply length_map|].
  intros i. apply list_lookup_fmap.
Qed.

End PrototypeFacts.

(** ** Further properties of the key buffer *)

Module KeyBufferFacts.
Import EventManager Spec Vocabulary KeyNames KeyBuffer.

Lemma keyId_reported (keyList : option (list string)) (e : KeyEvent) :
  getKeys_keyId (_pyglet2w3c <$> keyList) e = reported_name keyList e.
Proof.
  destruct keyList as [keyList|]; cbn [fmap option_fmap option_map reported_name].
  - apply getKeys_keyId_filter.
  - apply getKeys_keyId_no_filter.
Qed.

Lemma getKeys_reported (keyList : option (list string)) (timeStamped : bool)
    (self : EventManager) :
  getKeys keyList timeStamped self =
    (omap (λ e, key_result timeStamped e <$> reported_name keyList e) (_keyBuffer self),
     set_keyBuffer (filter (λ e, reported_name keyList e = None) (_keyBuffer self)) self).
Proof.
  rewrite getKeys_spec. cbv zeta. f_equal.
  - apply omap_pointwise. intros e. by rewrite keyId_reported.
  - f_equal. apply list_filter_iff. intros e. by rewrite keyId_reported.
Qed.

Lemma filter_twice {A} (P : A → Prop) `{!∀ x, Decision (P x)} (l : list A) :
  filter P (filter P l) = filter P l.
Proof.
  induction l as [|x l IH]; [reflexivity|].
  destruct (decide (P x)) as [HP|HP].
  - rewrite (filter_cons_True P x l) by done.
    rewrite filter_cons_True by done. by rewrite IH.
  - by rewrite (filter_cons_False P x l) by done.
Qed.

Lemma length_omap_filter {A B C} (f : A → option B) (g : A → B → C) (l : list A) :
  (length (omap (λ x, g x <$> f x) l) + length (filter (λ x, f x = None) l)
   = length l)%nat.
Proof.
  induction l as [|x l IH]; [reflexivity|].
  rewrite omap_cons_match. destruct (f x) as [y|] eqn:Hx.
  - rewrite filter_cons_False by (rewrite Hx; done). cbn. lia.
  - rewrite filter_cons_True by done. cbn. lia.
Qed.

(** X5. Without a key list [getKeys] does not empty the buffer: when no
    buffered event has a code that names a member of [Object.prototype],
    it returns, in capture order, the legacy names of the events whose
    code has one, and leaves in the buffer, in their order, the events
    without a code and those whose code has no legacy name. *)
Theorem getKeys_without_keyList (timeStamped : bool) (self : EventManager) :
  Forall plain_code (_keyBuffer self) →
  getKeys None timeStamped self =
    (omap (λ e, key_result timeStamped e <$> (code e ≫= toLegacyName)) (_keyBuffer self),
     set_keyBuffer (filter (λ e, code e ≫= toLegacyName = None) (_keyBuffer self)) self).
Proof. intros _. apply (getKeys_reported None). Qed.

Lemma getKeys_without_keyList_F1_Enter :
  let self := keydown press_Enter 2000 (keydown press_F1 1000 (constructor 0)) in
  Forall plain_code (_keyBuffer self) ∧
  getKeys None false self =
    (omap (λ e, key_result false e <$> (code e ≫= toLegacyName)) (_keyBuffer self),
     set_keyBuffer (filter (λ e, code e ≫= toLegacyName = None) (_keyBuffer self)) self).
Proof.
  cbv zeta.
  assert (Forall plain_code
            (_keyBuffer (keydown press_Enter 2000 (keydown press_F1 1000 (constructor 0)))))
    as Hplain.
  { repeat constructor; apply (bool_decide_unpack _); vm_compute; reflexivity. }
  split; [exact Hplain|].
  exact (getKeys_without_keyList false _ Hplain).
Defined.

Lemma getKeys_splits_buffer_aux (keyList : option (list string)) (timeStamped : bool)
    (self : EventManager) :
  let r := getKeys keyList timeStamped self in
  _keyBuffer r.2 `sublist_of` _keyBuffer self ∧
  (length r.1 + length (_keyBuffer r.2) = length (_keyBuffer self))%nat.
Proof.
  cbv zeta. rewrite getKeys_reported. cbn [fst snd set_keyBuffer _keyBuffer].
  split; [apply sublist_filter; apply _|].
  apply (length_omap_filter (reported_name keyList)).
Qed.

(** X6. [getKeys] splits the buffer: with or without key list, every
    buffered event is either returned or kept, none twice and none
    lost; the events kept are a subsequence of the buffer, and the
    mouse information is not touched. *)
Theorem getKeys_splits_buffer (keyList : option (list string)) (timeStamped : bool)
    (self : EventManager) :
  let r := getKeys keyList timeStamped self in
  _keyBuffer r.2 `sublist_of` _keyBuffer self ∧
  (length r.1 + length (_keyBuffer r.2) = length (_keyBuffer self))%nat ∧
  _mouseInfo r.2 = _mouseInfo self.
Proof.
  cbv zeta.
  destruct (getKeys_splits_buffer_aux keyList timeStamped self) as [Hsub Hlen].
  split; [exact Hsub | split; [exact Hlen|]].
  by rewrite getKeys_reported.
Qed.

(** X7. Asking again changes nothing: a second [getKeys] with the same
    key list (nothing being captured in between) returns an empty array
    and leaves the buffer as the first call left it, whatever the two
    values of [timeStamped]. *)
Theorem getKeys_again (keyList : option (list string)) (timeStamped timeStamped' : bool)
    (self : EventManager) :
  let self' := (getKeys keyList timeStamped self).2 in
  getKeys keyList timeStamped' self' = ([], self').
Proof.
  cbv zeta. rewrite (getKeys_reported keyList timeStamped self). cbn [snd].
  rewrite getKeys_reported. cbn [set_keyBuffer _keyBuffer _mouseInfo].
  f_equal.
  - apply (omap_filter_None (reported_name keyList)).
  - by rewrite filter_twice.
Qed.

Lemma getKeys_keydown (keyList : option (list string)) (timeStamped : bool)
    (e : KeyboardEvent) (referenceTime : Q) (self : EventManager) :
  getKeys keyList timeStamped (keydown e referenceTime self) =
    match reported_name keyList (captured e referenceTime) with
    | Some keyId =>
        ((getKeys keyList timeStamped self).1
           ++ [key_result timeStamped (captured e referenceTime) keyId],
         (getKeys keyList timeStamped self).2)
    | None =>
        ((getKeys keyList timeStamped self).1,
         set_keyBuffer
           (_keyBuffer (getKeys keyList timeStamped self).2
              ++ [captured e referenceTime])
           (getKeys keyList timeStamped self).2)
    end.
Proof.
  rewrite !getKeys_reported.
  unfold keydown. cbn [fst snd set_keyBuffer _keyBuffer _mouseInfo].
  fold (captured e referenceTime).
  rewrite omap_app, filter_app. cbn [omap list_omap].
  destruct (reported_name keyList (captured e referenceTime)) as [keyId|] eqn:Hnew.
  - rewrite (filter_cons_False _ _ []) by (rewrite Hnew; done).
    rewrite filter_nil, app_nil_r. reflexivity.
  - rewrite (filter_cons_True _ _ []) by done.
    rewrite filter_nil, app_nil_r. reflexivity.
Qed.



Lemma in_filter_elem (keyList : list string) (k c : string) :
  k ∈ keyList → toStandardCode k = c →
  in_filter (_pyglet2w3c keyList) (Some c) = Some c.
Proof.
  intros Hk <-. unfold in_filter. cbn [mbind option_bind].
  rewrite bool_decide_eq_true_2; [reflexivity|].
  rewrite _pyglet2w3c_map. by apply list_elem_of_fmap_2.
Qed.

(** X10. A key can be asked for by its pyglet name or by its W3C code,
    and is reported under its pyglet name in both cases: when the key
    list holds an identifier that normalises to the code of a pressed
    key, and the reverse table has a name for that code, [getKeys]
    reports the press under that name and removes it. *)
Theorem getKeys_reports_by_code (keyList : list string) (k c n : string)
    (e : KeyboardEvent) (referenceTime : Q) (self : EventManager) :
  k ∈ keyList →
  toStandardCode k = c →
  toLegacyName c = Some n →
  e_code e = Some c →
  getKeys (Some keyList) false (keydown e referenceTime self) =
    ((getKeys (Some keyList) false self).1 ++ [KeyName n],
     (getKeys (Some keyList) false self).2).
Proof.
  intros Hk Hc Hn He. rewrite getKeys_keydown.
  cbn [reported_name]. unfold matched_entry, captured. cbn [code].
  rewrite He, (in_filter_elem keyList k c Hk Hc). cbn [mbind option_bind]. by rewrite Hn.
Qed.

Lemma getKeys_reports_by_code_KeyA :
  getKeys (Some ["KeyA"; "space"]) false
    (keydown {| e_code := Some "KeyA"; e_key := "a"; e_keyCode := 65 |} 2000
       (constructor 0)) =
    ((getKeys (Some ["KeyA"; "space"]) false (constructor 0)).1 ++ [KeyName "a"],
     (getKeys (Some ["KeyA"; "space"]) false (constructor 0)).2).
Proof.
  apply (getKeys_reports_by_code ["KeyA"; "space"] "KeyA" "KeyA" "a").
  - apply list_elem_of_here.
  - vm_compute. reflexivity.
  - vm_compute. reflexivity.
  - reflexivity.
Defined.

(** X11. The numeric fallback also applies to an event that has a code:
    when the code of a pressed key is not in the normalised key list
    but the code that [_keycodeMap] gives for its numeric key code is,
    the press is reported under the legacy name of that other code.
    (The main Enter key, numeric code 13, is thus reported as
    ["num_enter"] to a key list that asks for ["num_enter"] alone.) *)
Theorem getKeys_reports_by_keyCode (keyList : list string) (k c n : string)
    (e : KeyboardEvent) (referenceTime : Q) (self : EventManager) :
  in_filter (_pyglet2w3c keyList) (e_code e) = None →
  _keycodeMap !! e_keyCode e = Some c →
  k ∈ keyList →
  toStandardCode k = c →
  toLegacyName c = Some n →
  getKeys (Some keyList) false (keydown e referenceTime self) =
    ((getKeys (Some keyList) false self).1 ++ [KeyName n],
     (getKeys (Some keyList) false self).2).
Proof.
  intros Hcode Hmap Hk Hc Hn. rewrite getKeys_keydown.
  cbn [reported_name]. unfold matched_entry, captured. cbn [code keyCode].
  rewrite Hcode, Hmap, (in_filter_elem keyList k c Hk Hc). cbn [mbind option_bind]. by rewrite Hn.
Qed.

Lemma getKeys_reports_Enter_as_num_enter :
  getKeys (Some ["num_enter"]) false (keydown press_Enter 2000 (constructor 0)) =
    ((getKeys (Some ["num_enter"]) false (constructor 0)).1 ++ [KeyName "num_enter"],
     (getKeys (Some ["num_enter"]) false (constructor 0)).2).
Proof.
  apply (getKeys_reports_by_keyCode ["num_enter"] "num_enter" "NumpadEnter" "num_enter").
  - vm_compute. reflexivity.
  - vm_compute. reflexivity.
  - apply list_elem_of_here.
  - vm_compute. reflexivity.
  - vm_compute. reflexivity.
Defined.

(** X12. Without a key list there is no numeric fallback: events that
    carry no code (a browser without [KeyboardEvent.code]) are never
    returned by [getKeys] without a key list, whatever their numeric
    key code; the call returns nothing for them and leaves them in the
    buffer. *)
Theorem getKeys_without_keyList_ignores_keyCode (timeStamped : bool)
    (self : EventManager) :
  Forall (λ e, code e = None) (_keyBuffer self) →
  getKeys None timeStamped self = ([], self).
Proof.
  intros Hall. rewrite (getKeys_reported None). cbn [reported_name].
  assert (Forall (λ e, code e ≫= toLegacyName = None) (_keyBuffer self)) as Hnone.
  { eapply Forall_impl; [exact Hall|]. intros e He. by rewrite He. }
  clear Hall. destruct self as [buf m]. cbn [_keyBuffer] in *.
  unfold set_keyBuffer. cbn [_keyBuffer _mouseInfo].
  induction Hnone as [|e l He _ IH]; [reflexivity|].
  rewrite omap_cons_match, He. cbn [fmap option_fmap option_map].
  rewrite filter_cons_True by done.
  injection IH as IH1 IH2. by rewrite IH1, IH2.
Qed.

Lemma getKeys_without_keyList_ignores_keyCode_A :
  getKeys None false (keydown press_A_legacy 2000 (constructor 0)) =
    ([], keydown press_A_legacy 2000 (constructor 0)).
Proof.
  apply (getKeys_without_keyList_ignores_keyCode false).
  repeat constructor.
Defined.

End KeyBufferFacts.

(** ** Further properties of the mouse listeners *)

Module PointerFacts.
Import EventManager Spec Vocabulary Pointer.

Lemma array_get_set_eq {A} (i : nat) (v : A) (a : list (option A)) :
  array_get (Js.array_set i v a) i = Some v.
Proof. unfold array_get. by rewrite array_set_lookup. Qed.

Lemma array_get_set_ne {A} (i j : nat) (v : A) (a : list (option A)) :
  i ≠ j → array_get (Js.array_set i v a) j = array_get a j.
Proof.
  intros Hne. unfold array_get, Js.array_set.
  destruct (Nat.ltb_spec i (length a)) as [Hlt|Hge].
  - by rewrite list_lookup_insert_ne.
  - destruct (decide (j < length a)%nat) as [Hj|Hj].
    + by rewrite lookup_app_l.
    + rewrite (proj2 (lookup_ge_None a j)) by lia.
      rewrite lookup_app_r by lia.
      destruct (decide (j - length a < i - length a)%nat) as [Hj'|Hj'].
      * rewrite lookup_app_l by (rewrite length_replicate; lia).
        by rewrite lookup_replicate_2.
      * rewrite lookup_app_r by (rewrite length_replicate; lia).
        rewrite length_replicate.
        destruct (j - length a - (i - length a))%nat as [|d] eqn:Hd; [lia|].
        reflexivity.
Qed.

(** X13. The buttons do not share state: whether it returns or throws,
    a [pointerdown] or [pointerup] listener leaves the pressed flag and
    the elapsed time read at every other button index as they were, and
    leaves every clock as it was. *)
Theorem button_listeners_independent (event : PointerEvent) (now : Q)
    (self : EventManager) (other : nat) :
  other ≠ button event →
  let down := Js.state_of (pointerdown event now self) in
  let up := Js.state_of (pointerup event now self) in
  array_get (button_pressed down) other = array_get (button_pressed self) other ∧
  array_get (button_times down) other = array_get (button_times self) other ∧
  array_get (button_pressed up) other = array_get (button_pressed self) other ∧
  array_get (button_times up) other = array_get (button_times self) other ∧
  button_clocks down = button_clocks self ∧
  button_clocks up = button_clocks self.
Proof.
  intros Hne. cbv zeta. unfold pointerdown, pointerup.
  cbn [clocks set_pressed].
  destruct (clocks (buttons (_mouseInfo self)) !! button event) as [clock|];
    unfold button_pressed, button_times, button_clocks; cbn;
    rewrite ?array_get_set_ne by done; done.
Qed.

Lemma button_listeners_independent_left_right :
  let self := constructor 0 in
  let event := {| button := 0; offsetX := 3; offsetY := 4 |} in
  let down := Js.state_of (pointerdown event 1 self) in
  let up := Js.state_of (pointerup event 1 self) in
  array_get (button_pressed down) 2 = array_get (button_pressed self) 2 ∧
  array_get (button_times down) 2 = array_get (button_times self) 2 ∧
  array_get (button_pressed up) 2 = array_get (button_pressed self) 2 ∧
  array_get (button_times up) 2 = array_get (button_times self) 2 ∧
  button_clocks down = button_clocks self ∧
  button_clocks up = button_clocks self.
Proof.
  apply (button_listeners_independent
           {| button := 0; offsetX := 3; offsetY := 4 |} 1 (constructor 0) 2).
  cbn. lia.
Defined.

(** X14. A button without a clock makes the listener throw half-way:
    [pointerdown] and [pointerup] for a button index that has no clock
    (any index from 3 on, for a constructed manager) throw after having
    written the pressed flag of that index, and leave the elapsed times,
    the position, the clocks and the key buffer as they were. *)
Theorem button_listener_without_clock (event : PointerEvent) (now : Q)
    (self : EventManager) :
  button_clocks self !! button event = None →
  ∃ down up : EventManager,
    pointerdown event now self = Js.Threw down ∧
    pointerup event now self = Js.Threw up ∧
    array_get (button_pressed down) (button event) = Some 1%Z ∧
    array_get (button_pressed up) (button event) = Some 0%Z ∧
    button_times down = button_times self ∧
    button_times up = button_times self ∧
    pos (_mouseInfo down) = pos (_mouseInfo self) ∧
    pos (_mouseInfo up) = pos (_mouseInfo self) ∧
    button_clocks down = button_clocks self ∧
    button_clocks up = button_clocks self ∧
    _keyBuffer down = _keyBuffer self ∧
    _keyBuffer up = _keyBuffer self.
Proof.
  unfold button_clocks. intros Hclock. unfold pointerdown, pointerup.
  cbn [clocks set_pressed]. rewrite Hclock.
  eexists _, _. split; [reflexivity|]. split; [reflexivity|].
  unfold button_pressed, button_times. cbn.
  by rewrite !array_get_set_eq.
Qed.

Lemma button_listener_without_clock_fourth :
  ∃ down up : EventManager,
    pointerdown {| button := 3; offsetX := 3; offsetY := 4 |} 1 (constructor 0)
      = Js.Threw down ∧
    pointerup {| button := 3; offsetX := 3; offsetY := 4 |} 1 (constructor 0)
      = Js.Threw up ∧
    array_get (button_pressed down) 3 = Some 1%Z ∧
    array_get (button_pressed up) 3 = Some 0%Z ∧
    button_times down = button_times (constructor 0) ∧
    button_times up = button_times (constructor 0) ∧
    pos (_mouseInfo down) = pos (_mouseInfo (constructor 0)) ∧
    pos (_mouseInfo up) = pos (_mouseInfo (constructor 0)) ∧
    button_clocks down = button_clocks (constructor 0) ∧
    button_clocks up = button_clocks (constructor 0) ∧
    _keyBuffer down = _keyBuffer (constructor 0) ∧
    _keyBuffer up = _keyBuffer (constructor 0).
Proof.
  apply (button_listener_without_clock
           {| button := 3; offsetX := 3; offsetY := 4 |} 1 (constructor 0)).
  reflexivity.
Defined.

Lemma step_button_clocks (self : EventManager) (i : Input) :
  button_clocks (step self i) = button_clocks self.
Proof.
  destruct i as [e t|e t|e t|e t|e|keyList timeStamped| | | | |]; cbn [step];
    try reflexivity.
  - unfold pointerdown. cbn [clocks set_pressed].
    by destruct (clocks (buttons (_mouseInfo self)) !! button e).
  - unfold pointerup. cbn [clocks set_pressed].
    by destruct (clocks (buttons (_mouseInfo self)) !! button e).
  - unfold getKeys. by destruct (getKeys_loop _ _ _ _ _).
Qed.

(** X15. No input resets a button clock: after any sequence of key,
    pointer and wheel events and of [getKeys] and [clearKeys] calls, the
    clocks of the buttons, and so their last reset times, are those the
    manager started with. *)
Theorem button_clocks_never_reset (inputs : list Input) (self : EventManager) :
  button_clocks (run inputs self) = button_clocks self ∧
  getLastResetTime <$> button_clocks (run inputs self)
    = getLastResetTime <$> button_clocks self.
Proof.
  assert (button_clocks (run inputs self) = button_clocks self) as H.
  { unfold run. revert self. induction inputs as [|i inputs IH]; intros self;
      [reflexivity|].
    cbn [foldl]. by rewrite IH, step_button_clocks. }
  by rewrite H.
Qed.

Lemma pointerdown_wf (e : PointerEvent) (now : Q) (self : EventManager) :
  buttons_wf self → (button e < 3)%nat →
  buttons_wf (Js.state_of (pointerdown e now self)).
Proof.
  intros (Hc & Hp & Ht & Hflags & Htimes) Hb.
  unfold button_clocks, button_pressed, button_times in *.
  destruct (lookup_lt_is_Some_2 (clocks (buttons (_mouseInfo self))) (button e))
    as [clock Hclock]; [lia|].
  unfold pointerdown. cbn [clocks set_pressed]. rewrite Hclock.
  unfold buttons_wf, button_clocks, button_pressed, button_times. cbn.
  unfold Js.array_set.
  rewrite !(proj2 (Nat.ltb_lt _ _)) by lia.
  rewrite !length_insert. repeat split; try done.
  - apply Forall_insert; [done | by right].
  - apply Forall_insert; [done | by eexists].
Qed.

Lemma pointerup_wf (e : PointerEvent) (now : Q) (self : EventManager) :
  buttons_wf self → (button e < 3)%nat →
  buttons_wf (Js.state_of (pointerup e now self)).
Proof.
  intros (Hc & Hp & Ht & Hflags & Htimes) Hb.
  unfold button_clocks, button_pressed, button_times in *.
  destruct (lookup_lt_is_Some_2 (clocks (buttons (_mouseInfo self))) (button e))
    as [clock Hclock]; [lia|].
  unfold pointerup. cbn [clocks set_pressed]. rewrite Hclock.
  unfold buttons_wf, button_clocks, button_pressed, button_times. cbn.
  unfold Js.array_set.
  rewrite !(proj2 (Nat.ltb_lt _ _)) by lia.
  rewrite !length_insert. repeat split; try done.
  - apply Forall_insert; [done | by left].
  - apply Forall_insert; [done | by eexists].
Qed.

Lemma step_wf (self : EventManager) (i : Input) :
  buttons_wf self → three_buttons i → buttons_wf (step self i).
Proof.
  intros Hwf Hi.
  destruct i as [e t|e t|e t|e t|e|keyList timeStamped| | | | |]; cbn [step];
    try exact Hwf.
  - by apply pointerdown_wf.
  - by apply pointerup_wf.
  - unfold getKeys. by destruct (getKeys_loop _ _ _ _ _).
Qed.

Lemma run_wf (inputs : list Input) (self : EventManager) :
  buttons_wf self → Forall three_buttons inputs → buttons_wf (run inputs self).
Proof.
  intros Hwf Hall. unfold run. revert self Hwf.
  induction Hall as [|i inputs Hi _ IH]; intros self Hwf; [exact Hwf|].
  cbn [foldl]. apply IH. by apply step_wf.
Qed.

Lemma constructor_wf (now : Q) : buttons_wf (constructor now).
Proof.
  unfold buttons_wf, button_clocks, button_pressed, button_times. cbn.
  repeat split; repeat constructor; by eexists.
Qed.

Lemma run_snoc (inputs : list Input) (i : Input) (self : EventManager) :
  run (inputs ++ [i]) self = step (run inputs self) i.
Proof. unfold run. by rewrite foldl_app. Qed.

(** X16. The button arrays keep their shape: starting from a
    constructed manager, after any sequence of inputs whose pointer-down
    and pointer-up events are for the buttons 0, 1 and 2, there are
    still three clocks, three pressed flags, each 0 or 1, and three
    elapsed times, none of them a hole. *)
Theorem buttons_wf_invariant (now : Q) (inputs : list Input) :
  Forall three_buttons inputs →
  buttons_wf (run inputs (constructor now)).
Proof.
  intros Hall. apply run_wf; [apply constructor_wf | exact Hall].
Qed.

Lemma buttons_wf_invariant_session :
  buttons_wf
    (run [ PointerDown {| button := 0; offsetX := 3; offsetY := 4 |} 1;
           Wheel {| deltaX := 0; deltaY := 5 |};
           PointerUp {| button := 0; offsetX := 3; offsetY := 4 |} 2;
           PointerDown {| button := 2; offsetX := 6; offsetY := 4 |} 3;
           GetKeys None false ]
         (constructor 0)).
Proof.
  apply (buttons_wf_invariant 0).
  repeat constructor.
Defined.

(** What one input does to the stored wheel movement. *)
Lemma wheel_step (self : EventManager) (i : Input) :
  wheelRel (_mouseInfo (step self i)) =
    match i with
    | Wheel e => ((wheelRel (_mouseInfo self)).1 + deltaX e,
                  (wheelRel (_mouseInfo self)).2 + deltaY e)%Q
    | _ => wheelRel (_mouseInfo self)
    end.
Proof.
  destruct i as [e t|e t|e t|e t|e|keyList timeStamped| | | | |]; cbn [step];
    try reflexivity.
  - unfold pointerdown. cbn [clocks set_pressed].
    by destruct (clocks (buttons (_mouseInfo self)) !! button e).
  - unfold pointerup. cbn [clocks set_pressed].
    by destruct (clocks (buttons (_mouseInfo self)) !! button e).
  - unfold getKeys. by destruct (getKeys_loop _ _ _ _ _).
Qed.

(** X17. The wheel movement only accumulates: after any sequence of
    inputs, the stored wheel movement is the one obtained from the
    movement stored before by adding to it, one wheel event after the
    other and in the order of the events, the deltas of the wheel events
    of the sequence; no other input, and no method, resets or changes
    it. *)
Theorem wheel_accumulates (inputs : list Input) (self : EventManager) :
  wheelRel (_mouseInfo (run inputs self)) =
    wheel_sum (wheelRel (_mouseInfo self)) (wheel_events inputs).
Proof.
  unfold run. revert self.
  induction inputs as [|i inputs IH]; intros self; [reflexivity|].
  cbn [foldl]. rewrite IH, wheel_step.
  destruct i; reflexivity.
Qed.

(** X28. Only a pointer move resets the move clock: after any sequence
    of inputs the move clock was last reset at the time of the last
    pointer-move event of the sequence, and is the clock the manager
    started with when there was none; [startMoveClock], [stopMoveClock]
    and [resetMoveClock] do not touch it. *)
Theorem move_clock_follows_moves (inputs : list Input) (self : EventManager) :
  moveClock (_mouseInfo (run inputs self)) =
    match last (move_times inputs) with
    | Some t => {| lastResetTime := t |}
    | None => moveClock (_mouseInfo self)
    end.
Proof.
  induction inputs as [|i inputs IH] using rev_ind; [reflexivity|].
  rewrite run_snoc. unfold move_times in *. rewrite omap_app, last_app.
  destruct i as [e t|e t|e t|e t|e|keyList timeStamped| | | | |];
    cbn [step omap list_omap last]; try exact IH.
  - unfold pointerdown. cbn [clocks set_pressed].
    by destruct (clocks (buttons (_mouseInfo (run inputs self))) !! button e).
  - unfold pointerup. cbn [clocks set_pressed].
    by destruct (clocks (buttons (_mouseInfo (run inputs self))) !! button e).
  - reflexivity.
  - unfold getKeys. by destruct (getKeys_loop _ _ _ _ _).
Qed.

(** X29. The stored position is that of the last pointer event:
    starting from well-formed button arrays, after any sequence of
    inputs whose button events are for the buttons 0, 1 and 2, [pos]
    holds the offsets of the last pointer-down, pointer-up or
    pointer-move event, and is unchanged when there was none. *)
Theorem pos_follows_pointer (inputs : list Input) (self : EventManager) :
  buttons_wf self →
  Forall three_buttons inputs →
  pos (_mouseInfo (run inputs self)) =
    default (pos (_mouseInfo self)) (last (pointer_positions inputs)).
Proof.
  intros Hwf.
  induction inputs as [|i inputs IH] using rev_ind; intros Hall; [reflexivity|].
  apply Forall_app in Hall as [Hall Hi]. apply Forall_inv in Hi.
  specialize (IH Hall). pose proof (run_wf inputs self Hwf Hall) as Hwf'.
  rewrite run_snoc. unfold pointer_positions in *. rewrite omap_app, last_app.
  destruct i as [e t|e t|e t|e t|e|keyList timeStamped| | | | |];
    cbn [step omap list_omap last three_buttons] in *; try exact IH.
  - destruct Hwf' as (Hc & _).
    destruct (lookup_lt_is_Some_2 (button_clocks (run inputs self)) (button e))
      as [c Hclock]; [rewrite Hc; exact Hi|].
    destruct (pointerdown_done e t (run inputs self) c Hclock)
      as (self' & Hdone & _ & _ & _ & Hpos).
    rewrite Hdone. exact Hpos.
  - destruct Hwf' as (Hc & _).
    destruct (lookup_lt_is_Some_2 (button_clocks (run inputs self)) (button e))
      as [c Hclock]; [rewrite Hc; exact Hi|].
    destruct (pointerup_done e t (run inputs self) c Hclock)
      as (self' & Hdone & _ & _ & _ & Hpos).
    rewrite Hdone. exact Hpos.
  - reflexivity.
  - unfold getKeys. by destruct (getKeys_loop _ _ _ _ _).
Qed.

Lemma pos_follows_pointer_session :
  pos (_mouseInfo
         (run [ PointerMove {| button := 0; offsetX := 1; offsetY := 1 |} 1;
                PointerDown {| button := 0; offsetX := 3; offsetY := 4 |} 2;
                KeyDown press_Enter 2000;
                ResetMoveClock ]
              (constructor 0))) =
    default (pos (_mouseInfo (constructor 0)))
      (last (pointer_positions
               [ PointerMove {| button := 0; offsetX := 1; offsetY := 1 |} 1;
                 PointerDown {| button := 0; offsetX := 3; offsetY := 4 |} 2;
                 KeyDown press_Enter 2000;
                 ResetMoveClock ])).
Proof.
  apply pos_follows_pointer.
  - apply constructor_wf.
  - repeat constructor.
Defined.

(** X30. The buffer holds nothing but captured events, in capture
    order: after any sequence of inputs, the key buffer is a subsequence
    of the events it held at the start followed by the events that the
    [keydown] listener captured, in that order; no listener or method
    reorders, duplicates or invents an event. *)
Theorem buffer_is_subsequence_of_captures (inputs : list Input) (self : EventManager) :
  _keyBuffer (run inputs self) `sublist_of` _keyBuffer self ++ captured_events inputs.
Proof.
  induction inputs as [|i inputs IH] using rev_ind.
  - cbn. by rewrite app_nil_r.
  - rewrite run_snoc. unfold captured_events in *. rewrite omap_app, app_assoc.
    destruct i as [e t|e t|e t|e t|e|keyList timeStamped| | | | |];
      cbn [step omap list_omap]; rewrite ?app_nil_r; try exact IH.
    + unfold keydown. cbn [set_keyBuffer _keyBuffer]. by apply sublist_app.
    + unfold pointerdown. cbn [clocks set_pressed].
      by destruct (clocks (buttons (_mouseInfo (run inputs self))) !! button e).
    + unfold pointerup. cbn [clocks set_pressed].
      by destruct (clocks (buttons (_mouseInfo (run inputs self))) !! button e).
    + etrans; [|exact IH].
      destruct (KeyBufferFacts.getKeys_splits_buffer_aux keyList timeStamped (run inputs self))
        as [Hsub _]. exact Hsub.
    + apply sublist_nil_l.
    + apply sublist_nil_l.
Qed.

(** C8, as the design document has it for every button index, fails at
    the index 3, a button that the mouse information has no clock for:
    the [pointerdown] listener throws on reading the clock, so does the
    [pointerup] listener, and no elapsed time is stored for the button. *)
Lemma down_up_fourth_button :
  (1 < 6 # 5)%Q ∧
  ¬ down_up_stores_elapsed 3 1 (6 # 5) (3, 4)%Q (constructor 0) ∧
  array_get
    (button_times
       (Js.state_of
          (pointerup {| button := 3; offsetX := 3; offsetY := 4 |} (6 # 5)
             (Js.state_of
                (pointerdown {| button := 3; offsetX := 3; offsetY := 4 |} 1
                   (constructor 0)))))) 3 = None.
Proof.
  split; [reflexivity | split; [|reflexivity]].
  intros (clock & Hclock & _). discriminate Hclock.
Qed.

End PointerFacts.

(** ** Further properties of the render loop *)

Module RenderLoopFacts.
Import Window Spec Vocabulary RenderLoop.

Section Generic.
Context {Obj Arg Fn StimData : Type}.

Local Abbreviation Store := (Window.Store Obj Arg Fn StimData).
Local Abbreviation Event := (Window.Event Obj Arg Fn).

Variable stim_updateIfNeeded : Stim StimData → Stim StimData.
Variable invoke : Fn → list Arg → Store → Store.

Lemma flagged_stims (s s' : Store) (ref : nat) :
  stims s' = stims s → flagged s' ref = flagged s ref.
Proof. unfold flagged. by intros ->. Qed.

Lemma flagged_update_stim (s : Store) (x ref : nat) :
  lowers_flag stim_updateIfNeeded →
  flagged (update_stim x stim_updateIfNeeded s) ref =
    flagged s ref && bool_decide (ref ≠ x).
Proof.
  intros Hlow. unfold flagged, update_stim. cbn [stims].
  case_bool_decide as Hne.
  - rewrite lookup_alter_ne by done. by rewrite andb_true_r.
  - subst ref. rewrite lookup_alter_eq, andb_false_r.
    destruct (stims s !! x) as [stim|]; [cbn; apply Hlow | reflexivity].
Qed.

Lemma updates_of_log_events (logTime : Q) (entries : list (LogEntry Obj)) :
  updates_of (map (@log_event Obj Arg Fn logTime) entries) = [] ∧
  backgrounds_of (map (@log_event Obj Arg Fn logTime) entries) = [].
Proof. induction entries as [|e entries [IH1 IH2]]; [done|]. by cbn. Qed.

(** The loop of [_refresh] over the list [l], when an update lowers
    the flag: which stimuli it updates, and which flags it leaves. *)
Lemma refresh_loop_updates_once (l : list nat) (s : Store) :
  lowers_flag stim_updateIfNeeded →
  let r := for_each l (refresh_stim stim_updateIfNeeded) s in
  NoDup (updates_of (trace r)) ∧
  updates_of (trace r) `sublist_of` l ∧
  (∀ ref, ref ∈ updates_of (trace r) ↔ ref ∈ l ∧ flagged s ref = true) ∧
  (∀ ref, flagged (store r) ref = flagged s ref && bool_decide (ref ∉ l)) ∧
  backgrounds_of (trace r) = [].
Proof.
  intros Hlow. cbv zeta. revert s. induction l as [|x l IH]; intros s.
  - cbn. split; [|split; [|split; [|split]]].
    + constructor.
    + constructor.
    + intros ref. split; [by intros ?%elem_of_nil | by intros [?%elem_of_nil _]].
    + intros ref. rewrite bool_decide_eq_true_2 by apply not_elem_of_nil.
      by rewrite andb_true_r.
    + reflexivity.
  - rewrite for_each_cons_run, (refresh_stim_run stim_updateIfNeeded).
    assert (flagged s x = default false (stim_needUpdate <$> stims s !! x)) as Hx
      by reflexivity.
    destruct (stims s !! x) as [stim|] eqn:Hstim;
      [destruct (stim_needUpdate stim) eqn:Hflag|]; cbn in Hx; rewrite ?Hflag in Hx.
    + specialize (IH (update_stim x stim_updateIfNeeded s)).
      destruct (for_each l _ _) as [[tr s'] r]. cbn [trace store fst snd] in *.
      destruct IH as (Hnd & Hsub & Hmem & Hfl & Hbg).
      change (updates_of (update_block stim_updateIfNeeded x stim ++ tr))
        with (x :: updates_of tr).
      change (backgrounds_of (update_block stim_updateIfNeeded x stim ++ tr))
        with (backgrounds_of tr).
      split; [|split; [|split; [|split]]].
      * apply NoDup_cons. split; [|done].
        rewrite Hmem, flagged_update_stim by done.
        rewrite bool_decide_eq_false_2 by (intros ?; done).
        rewrite andb_false_r. by intros [_ ?].
      * by apply sublist_skip.
      * intros ref. split.
        -- intros [->|Hin]%elem_of_cons; [by split; [apply list_elem_of_here|]|].
           apply Hmem in Hin as [Hin Hf]. split; [by apply list_elem_of_further|].
           rewrite flagged_update_stim in Hf by done.
           by apply andb_true_iff in Hf as [? _].
        -- intros [Hin Hf]. destruct (decide (ref = x)) as [->|Hne];
             [apply list_elem_of_here|].
           apply list_elem_of_further, Hmem. split.
           ++ apply elem_of_cons in Hin as [?|?]; [done|assumption].
           ++ rewrite flagged_update_stim by done.
              by rewrite Hf, bool_decide_eq_true_2.
      * intros ref. rewrite Hfl, flagged_update_stim by done.
        rewrite <- andb_assoc. f_equal.
        rewrite <- bool_decide_and. apply bool_decide_ext.
        by rewrite not_elem_of_cons.
      * exact Hbg.
    + specialize (IH s).
      destruct (for_each l _ _) as [[tr s'] r]. cbn [trace store fst snd app] in *.
      destruct IH as (Hnd & Hsub & Hmem & Hfl & Hbg).
      split; [done|split; [by apply sublist_cons|split; [|split; [|done]]]].
      * intros ref. rewrite Hmem. split.
        -- intros [Hin Hf]. split; [by apply list_elem_of_further | done].
        -- intros [Hin Hf]. split; [|done].
           apply elem_of_cons in Hin as [->|?]; [congruence|assumption].
      * intros ref. rewrite Hfl.
        destruct (decide (ref = x)) as [->|Hne].
        -- by rewrite Hx.
        -- f_equal. apply bool_decide_ext. rewrite not_elem_of_cons. tauto.
    + specialize (IH s).
      destruct (for_each l _ _) as [[tr s'] r]. cbn [trace store fst snd app] in *.
      destruct IH as (Hnd & Hsub & Hmem & Hfl & Hbg).
      split; [done|split; [by apply sublist_cons|split; [|split; [|done]]]].
      * intros ref. rewrite Hmem. split.
        -- intros [Hin Hf]. split; [by apply list_elem_of_further | done].
        -- intros [Hin Hf]. split; [|done].
           apply elem_of_cons in Hin as [->|?]; [congruence|assumption].
      * intros ref. rewrite Hfl.
        destruct (decide (ref = x)) as [->|Hne].
        -- by rewrite Hx.
        -- f_equal. apply bool_decide_ext. rewrite not_elem_of_cons. tauto.
Qed.

Lemma refresh_loop_dom (l : list nat) (s : Store) :
  dom (stims (store (for_each l (refresh_stim stim_updateIfNeeded) s))) = dom (stims s).
Proof.
  revert s. induction l as [|x l IH]; intros s; [reflexivity|].
  rewrite for_each_cons_run, (refresh_stim_run stim_updateIfNeeded).
  destruct (stims s !! x) as [stim|]; [destruct (stim_needUpdate stim)|].
  - specialize (IH (update_stim x stim_updateIfNeeded s)).
    destruct (for_each l _ _) as [[tr s'] r]. cbn [store fst snd] in *.
    rewrite IH. cbn [update_stim stims]. apply dom_alter_L.
  - specialize (IH s). by destruct (for_each l _ _) as [[tr s'] r].
  - specialize (IH s). by destruct (for_each l _ _) as [[tr s'] r].
Qed.

Lemma _refresh_window (s : Store) :
  window (store (_refresh stim_updateIfNeeded s)) =
    if _needUpdate (window s) then clear_needUpdate (window s) else window s.
Proof.
  rewrite _refresh_run. cbv zeta.
  destruct (refresh_loop_frame stim_updateIfNeeded (_drawList (window s))
              (if _needUpdate (window s)
               then update_window clear_needUpdate s else s))
    as (_ & _ & Hw & _).
  cbn [store fst snd]. rewrite Hw. by destruct (_needUpdate (window s)).
Qed.

Lemma _refresh_drawList (s : Store) :
  _drawList (window (store (_refresh stim_updateIfNeeded s))) = _drawList (window s).
Proof. rewrite _refresh_window. by destruct (_needUpdate (window s)). Qed.

Lemma _refresh_updates_once (s : Store) :
  lowers_flag stim_updateIfNeeded →
  let r := _refresh stim_updateIfNeeded s in
  NoDup (updates_of (trace r)) ∧
  updates_of (trace r) `sublist_of` _drawList (window s) ∧
  (∀ ref, ref ∈ updates_of (trace r)
          ↔ ref ∈ _drawList (window s) ∧ flagged s ref = true) ∧
  (∀ ref, flagged (store r) ref
          = flagged s ref && bool_decide (ref ∉ _drawList (window s))) ∧
  backgrounds_of (trace r) =
    if _needUpdate (window s) then [_color (window s)] else [].
Proof.
  intros Hlow. cbv zeta. rewrite _refresh_run. cbv zeta.
  destruct (_needUpdate (window s)).
  - destruct (refresh_loop_updates_once (_drawList (window s))
                (update_window clear_needUpdate s) Hlow)
      as (Hnd & Hsub & Hmem & Hfl & Hbg).
    cbn [trace store fst snd].
    unfold updates_of, backgrounds_of in *. cbn [app omap list_omap].
    split; [exact Hnd|split; [exact Hsub|split; [exact Hmem|split; [exact Hfl|]]]].
    by rewrite Hbg.
  - destruct (refresh_loop_updates_once (_drawList (window s)) s Hlow)
      as (Hnd & Hsub & Hmem & Hfl & Hbg).
    cbn [trace store fst snd app].
    split; [exact Hnd|split; [exact Hsub|split; [exact Hmem|split; [exact Hfl|]]]].
    exact Hbg.
Qed.

(** X18. After an update that lowers the flag, [_refresh] leaves no
    stimulus of the draw list flagged and does not touch the flag of
    any other stimulus; the window's own flag is lowered and the draw
    list is as before. *)
Theorem refresh_lowers_flags (s : Store) (ref : nat) :
  lowers_flag stim_updateIfNeeded →
  let r := _refresh stim_updateIfNeeded s in
  flagged (store r) ref
    = flagged s ref && bool_decide (ref ∉ _drawList (window s)) ∧
  _needUpdate (window (store r)) = false ∧
  _drawList (window (store r)) = _drawList (window s).
Proof.
  intros Hlow. cbv zeta.
  destruct (_refresh_updates_once s Hlow) as (_ & _ & _ & Hfl & _).
  split; [apply Hfl|]. rewrite _refresh_window.
  by destruct (_needUpdate (window s)) eqn:Hnu.
Qed.

(** X19. [_refresh] updates each flagged stimulus of the draw list
    exactly once, in draw-list order, even when the draw list names it
    more than once, and updates nothing else: the stimuli on which it
    calls [_updateIfNeeded] are without repetition, a subsequence of
    the draw list, and exactly the listed stimuli whose flag is set. *)
Theorem refresh_updates_each_once (s : Store) :
  lowers_flag stim_updateIfNeeded →
  let updated := updates_of (trace (_refresh stim_updateIfNeeded s)) in
  NoDup updated ∧
  updated `sublist_of` _drawList (window s) ∧
  ∀ ref, ref ∈ updated ↔ ref ∈ _drawList (window s) ∧ flagged s ref = true.
Proof.
  intros Hlow. cbv zeta.
  by destruct (_refresh_updates_once s Hlow) as (? & ? & ? & _).
Qed.

(** X20. [_refresh] keeps to the draw list: a stimulus that the draw
    list does not name is left exactly as it is, no stimulus is added
    to or dropped from the store, and the flip callback registration
    and the log queue are not touched. *)
Theorem refresh_keeps_to_draw_list (s : Store) (ref : nat) :
  ref ∉ _drawList (window s) →
  let r := _refresh stim_updateIfNeeded s in
  stims (store r) !! ref = stims s !! ref ∧
  dom (stims (store r)) = dom (stims s) ∧
  registration (store r) = registration s ∧
  _msgToBeLogged (window (store r)) = _msgToBeLogged (window s).
Proof.
  intros Hnotin. cbv zeta.
  destruct (_refresh_frame stim_updateIfNeeded s) as (_ & _ & Hreg & Hlog).
  split; [|split; [|by split]].
  - rewrite _refresh_run. cbv zeta. cbn [store fst snd].
    destruct (refresh_loop_frame stim_updateIfNeeded (_drawList (window s))
                (if _needUpdate (window s)
                 then update_window clear_needUpdate s else s))
      as (_ & _ & _ & Hst).
    rewrite Hst by done. by destruct (_needUpdate (window s)).
  - rewrite _refresh_run. cbv zeta. cbn [store fst snd].
    rewrite refresh_loop_dom. by destruct (_needUpdate (window s)).
Qed.

(** X22. The last registration wins, and registering [undefined]
    unregisters: whatever the window held before, the tick that
    follows [callOnFlip(flipCallback, ...args)] returns and calls
    [flipCallback] once with [args] when it is a function, and calls
    nothing when it is [undefined]. *)
Theorem callOnFlip_then_render (logTime : Q) (s : Store)
    (flipCallback : option Fn) (args : list Arg) :
  let tick := render stim_updateIfNeeded invoke logTime
                (store (callOnFlip flipCallback args s)) in
  result tick = Return () ∧
  flip_calls (trace tick) =
    match flipCallback with Some f => [(f, args)] | None => [] end.
Proof.
  cbv zeta. rewrite render_run. cbv zeta.
  cbn [callOnFlip modify store fst snd update_window window
       _flipCallback _flipCallbackArgs _msgToBeLogged].
  destruct (log_events_only (Arg:=Arg) (Fn:=Fn) logTime (_msgToBeLogged (window s)))
    as (Hlogs & _ & _).
  destruct flipCallback as [f|].
  - match goal with |- context [_refresh _ ?s0] =>
      destruct (_refresh_frame stim_updateIfNeeded s0) as (Hr & Htr & _) end.
    apply refresh_events_only in Htr as (Htr & _ & _).
    cbn [trace result fst snd]. split; [exact Hr|].
    change (RendererRender :: GlReadPixels :: ?l)
      with ([RendererRender; GlReadPixels] ++ l).
    unfold flip_calls in *. rewrite omap_app, omap_app, Hlogs. cbn.
    by rewrite Htr.
  - match goal with |- context [_refresh _ ?s0] =>
      destruct (_refresh_frame stim_updateIfNeeded s0) as (Hr & Htr & _) end.
    apply refresh_events_only in Htr as (Htr & _ & _).
    cbn [trace result fst snd]. split; [exact Hr|].
    change (RendererRender :: GlReadPixels :: ?l)
      with ([RendererRender; GlReadPixels] ++ l).
    unfold flip_calls in *. rewrite omap_app, omap_app, Hlogs. cbn.
    exact Htr.
Qed.

Lemma _refresh_frameCount (s : Store) :
  _frameCount (window (store (_refresh stim_updateIfNeeded s))) = _frameCount (window s).
Proof. rewrite _refresh_window. by destruct (_needUpdate (window s)). Qed.

(** X23. Every call of [render] counts one frame: while the counter
    is below 2^53, the range in which the numbers of the program count
    by one exactly, and when the flip callback leaves the counter
    alone, [_frameCount] after the tick is [_frameCount] before it
    plus one, whether [render] returns or throws. *)
Theorem render_counts_one_frame (logTime : Q) (s : Store) :
  (0 ≤ _frameCount (window s) < 2 ^ 53)%Z →
  keeps_frameCount invoke →
  _frameCount (window (store (render stim_updateIfNeeded invoke logTime s)))
    = (_frameCount (window s) + 1)%Z.
Proof.
  intros _ Hkeeps. rewrite render_run. cbv zeta.
  destruct (_flipCallback (window s)) as [f|];
    [destruct (_flipCallbackArgs (window s)) as [args|]|];
    cbn [store fst snd]; rewrite ?_refresh_frameCount, ?Hkeeps; reflexivity.
Qed.

Lemma _refresh_log (s : Store) :
  _msgToBeLogged (window (store (_refresh stim_updateIfNeeded s)))
    = _msgToBeLogged (window s).
Proof. rewrite _refresh_window. by destruct (_needUpdate (window s)). Qed.

Lemma render_log (logTime : Q) (s : Store) :
  keeps_log invoke →
  _msgToBeLogged (window (store (render stim_updateIfNeeded invoke logTime s))) = [].
Proof.
  intros Hkeeps. rewrite render_run. cbv zeta.
  destruct (_flipCallback (window s)) as [f|];
    [destruct (_flipCallbackArgs (window s)) as [args|]|];
    cbn [store fst snd]; rewrite ?_refresh_log, ?Hkeeps; reflexivity.
Qed.

(** X24. No entry is flushed in two ticks: when the flip callback
    leaves the log queue alone, the queue is empty after every tick,
    whether [render] returns or throws, and a second tick, nothing
    being enqueued in between, hands nothing to the logger. *)
Theorem render_flushes_once (logTime logTime' : Q) (s : Store) :
  keeps_log invoke →
  let tick := render stim_updateIfNeeded invoke logTime s in
  _msgToBeLogged (window (store tick)) = [] ∧
  log_times (trace (render stim_updateIfNeeded invoke logTime' (store tick))) = [].
Proof.
  intros Hkeeps. cbv zeta.
  pose proof (render_log logTime s Hkeeps) as Hempty.
  split; [exact Hempty|].
  rewrite render_run. cbv zeta. rewrite Hempty. cbn [map app].
  set (s1 := update_window _ _).
  destruct (_flipCallback _) as [f|];
    [destruct (_flipCallbackArgs _) as [args|]|]; cbn [trace fst snd].
  - destruct (_refresh_frame stim_updateIfNeeded (invoke f args s1)) as (_ & Htr & _).
    apply refresh_events_only in Htr as (_ & Htr & _).
    cbn. exact Htr.
  - reflexivity.
  - destruct (_refresh_frame stim_updateIfNeeded s1) as (_ & Htr & _).
    apply refresh_events_only in Htr as (_ & Htr & _).
    cbn. exact Htr.
Qed.

Lemma nil_of_no_elem {A} (l : list A) : (∀ x, x ∉ l) → l = [].
Proof.
  destruct l as [|x l]; [done|]. intros H. destruct (H x). apply list_elem_of_here.
Qed.

Lemma updates_of_app (tr1 tr2 : list Event) :
  updates_of (tr1 ++ tr2) = updates_of tr1 ++ updates_of tr2.
Proof. apply omap_app. Qed.

Lemma render_settles (logTime : Q) (s : Store) :
  lowers_flag stim_updateIfNeeded →
  settled (store (render stim_updateIfNeeded invoke logTime s)) ∨
  stuck (store (render stim_updateIfNeeded invoke logTime s)).
Proof.
  intros Hlow. rewrite render_run. cbv zeta.
  set (s1 := update_window (λ w, clear_log (bump_frameCount w)) s).
  assert (∀ X : Store, settled (store (_refresh stim_updateIfNeeded X))) as Hsettled.
  { intros X ref Hin. rewrite _refresh_drawList in Hin.
    destruct (_refresh_updates_once X Hlow) as (_ & _ & _ & Hfl & _).
    rewrite Hfl, bool_decide_eq_false_2 by (intros ?; done).
    apply andb_false_r. }
  destruct (_flipCallback (window s)) as [f|] eqn:Hf;
    [destruct (_flipCallbackArgs (window s)) as [args|] eqn:Hargs|];
    cbn [store fst snd].
  - left. apply Hsettled.
  - right. split; cbn; [by rewrite Hf | exact Hargs].
  - left. apply Hsettled.
Qed.

Lemma render_settled_updates_nothing (logTime : Q) (s : Store) :
  lowers_flag stim_updateIfNeeded →
  keeps_stimuli invoke →
  settled s ∨ stuck s →
  updates_of (trace (render stim_updateIfNeeded invoke logTime s)) = [].
Proof.
  intros Hlow Hkeeps Hs. rewrite render_run. cbv zeta.
  set (s1 := update_window (λ w, clear_log (bump_frameCount w)) s).
  destruct (updates_of_log_events logTime (_msgToBeLogged (window s))) as [Hlogs _].
  assert (∀ X : Store, stims X = stims s → _drawList (window X) = _drawList (window s) →
               settled s →
               updates_of (trace (_refresh stim_updateIfNeeded X)) = []) as Hnone.
  { intros X Hst Hdl Hset. apply nil_of_no_elem. intros ref Hin.
    destruct (_refresh_updates_once X Hlow) as (_ & _ & Hmem & _).
    apply Hmem in Hin as [Hin Hflag]. rewrite Hdl in Hin.
    rewrite (flagged_stims s X ref Hst), (Hset ref Hin) in Hflag. done. }
  destruct (_flipCallback (window s)) as [f|] eqn:Hf;
    [destruct (_flipCallbackArgs (window s)) as [args|] eqn:Hargs|];
    cbn [trace fst snd];
    change (RendererRender :: GlReadPixels :: ?l)
      with ([RendererRender; GlReadPixels] ++ l).
  - destruct Hs as [Hset|[_ Hstuck]]; [|congruence].
    destruct (Hkeeps f args s1) as [Hst Hdl].
    change (?l ++ FlipCallback f args :: ?tr) with (l ++ [FlipCallback f args] ++ tr).
    rewrite !updates_of_app, Hlogs, (Hnone _ Hst Hdl Hset). reflexivity.
  - by rewrite updates_of_app, Hlogs.
  - destruct Hs as [Hset|[[? Hstuck] _]]; [|congruence].
    rewrite !updates_of_app, Hlogs, (Hnone s1 eq_refl eq_refl Hset). reflexivity.
Qed.

(** X25. The updates of one tick hold for the next: when an update
    lowers the flag and the flip callback leaves the stimuli alone, a
    tick that follows another, no stimulus being flagged in between,
    calls [_updateIfNeeded] on no stimulus. *)
Theorem second_tick_updates_nothing (logTime logTime' : Q) (s : Store) :
  lowers_flag stim_updateIfNeeded →
  keeps_stimuli invoke →
  updates_of
    (trace (render stim_updateIfNeeded invoke logTime'
              (store (render stim_updateIfNeeded invoke logTime s)))) = [].
Proof.
  intros Hlow Hkeeps. apply render_settled_updates_nothing; [done..|].
  by apply render_settles.
Qed.

End Generic.

Lemma apply_update_lowers_flag : lowers_flag apply_update.
Proof. intros stim. reflexivity. Qed.

Lemma refresh_lowers_flags_two_stims :
  let r := _refresh apply_update two_stims in
  flagged (store r) 0 = flagged two_stims 0 && bool_decide (0%nat ∉ [0; 1; 0]%nat) ∧
  _needUpdate (window (store r)) = false ∧
  _drawList (window (store r)) = [0; 1; 0]%nat.
Proof.
  apply (refresh_lowers_flags apply_update two_stims 0).
  intros stim. reflexivity.
Defined.

Lemma refresh_updates_each_once_two_stims :
  let updated := updates_of (trace (_refresh apply_update two_stims)) in
  NoDup updated ∧
  updated `sublist_of` [0; 1; 0]%nat ∧
  ∀ ref, ref ∈ updated ↔ ref ∈ [0; 1; 0]%nat ∧ flagged two_stims ref = true.
Proof.
  apply (refresh_updates_each_once apply_update two_stims).
  intros stim. reflexivity.
Defined.

(** The stimulus listed twice is updated once. *)
Example refresh_two_stims :
  trace (_refresh apply_update two_stims) =
    [RemoveChild 7; StimUpdateIfNeeded 0; AddChild 7].
Proof. vm_compute. reflexivity. Qed.

Lemma refresh_keeps_to_draw_list_two_stims :
  let r := _refresh apply_update two_stims in
  stims (store r) !! 5%nat = stims two_stims !! 5%nat ∧
  dom (stims (store r)) = dom (stims two_stims) ∧
  registration (store r) = registration two_stims ∧
  _msgToBeLogged (window (store r)) = _msgToBeLogged (window two_stims).
Proof.
  apply (refresh_keeps_to_draw_list apply_update two_stims 5).
  vm_compute. intros Hin. repeat (apply elem_of_cons in Hin as [Hin|Hin]; [lia|]).
  by apply elem_of_nil in Hin.
Defined.

Lemma render_counts_one_frame_with_callback :
  _frameCount (window (store (render apply_update no_effect 0 with_callback)))
    = (_frameCount (window with_callback) + 1)%Z.
Proof.
  apply (render_counts_one_frame apply_update no_effect 0 with_callback).
  - vm_compute. split; [discriminate | reflexivity].
  - intros f args s. reflexivity.
Defined.

Lemma render_flushes_once_with_callback :
  let tick := render apply_update no_effect 0 with_callback in
  _msgToBeLogged (window (store tick)) = [] ∧
  log_times (trace (render apply_update no_effect 1 (store tick))) = [].
Proof.
  apply (render_flushes_once apply_update no_effect 0 1 with_callback).
  intros f args s. reflexivity.
Defined.

Lemma second_tick_updates_nothing_two_stims :
  updates_of
    (trace (render apply_update no_effect 1
              (store (render apply_update no_effect 0 two_stims)))) = [].
Proof.
  apply (second_tick_updates_nothing apply_update no_effect 0 1 two_stims).
  - intros stim. reflexivity.
  - intros f args s. split; reflexivity.
Defined.

End RenderLoopFacts.

(** ** Going full screen *)

Module ScreenFacts.
Import Window Screen Spec Vocabulary RenderLoop RenderLoopFacts.

Section Generic.
Context {Obj Arg Fn StimData : Type}.

Local Abbreviation Store := (Window.Store Obj Arg Fn StimData).

Variable stim_updateIfNeeded : Stim StimData → Stim StimData.
Variable invoke : Fn → list Arg → Store → Store.

(** The loop of [adjustScreenSize] over the draw list. *)
Lemma flag_all (l : list nat) (s : Store) :
  let s' := foldl (λ s stim, update_stim stim (set_stim_needUpdate true) s) s l in
  window s' = window s ∧
  ∀ ref, stims s' !! ref =
           if bool_decide (ref ∈ l)
           then set_stim_needUpdate true <$> stims s !! ref
           else stims s !! ref.
Proof.
  cbv zeta. revert s. induction l as [|x l IH]; intros s.
  - split; [reflexivity|]. intros ref.
    by rewrite bool_decide_eq_false_2 by apply not_elem_of_nil.
  - cbn [foldl].
    destruct (IH (update_stim x (set_stim_needUpdate true) s)) as [Hw Hst].
    split; [by rewrite Hw|]. intros ref. rewrite Hst. cbn [update_stim stims].
    destruct (decide (ref = x)) as [->|Hne].
    + rewrite lookup_alter_eq.
      rewrite (bool_decide_eq_true_2 (x ∈ x :: l)) by apply list_elem_of_here.
      case_bool_decide; [|reflexivity].
      by destruct (stims s !! x).
    + rewrite lookup_alter_ne by done.
      apply (f_equal (λ b : bool, if b then _ else _)).
      apply bool_decide_ext. rewrite elem_of_cons. tauto.
Qed.

(** X26. [adjustScreenSize] does nothing when the window is not full
    screen.  When it is, it makes exactly one outside call: a request
    through an entry point that exists, or, when none exists, a
    warning, after which it carries on; it raises the window's flag
    and the flag of every stimulus of the draw list, and leaves the
    draw list and every other stimulus as they were. *)
Theorem adjustScreenSize_flags_all (fullscr : bool)
    (available : FullscreenApi → bool) (s : Store) :
  let r := adjustScreenSize fullscr available s in
  if fullscr then
    (∃ call, r.1 = [call] ∧
             match call with
             | Request api => available api = true
             | LoggerWarn _ => ∀ api, available api = false
             end) ∧
    _needUpdate (window r.2) = true ∧
    _drawList (window r.2) = _drawList (window s) ∧
    ∀ ref, stims r.2 !! ref =
             if bool_decide (ref ∈ _drawList (window s))
             then set_stim_needUpdate true <$> stims s !! ref
             else stims s !! ref
  else r = ([], s).
Proof.
  cbv zeta. unfold adjustScreenSize. destruct fullscr; [|reflexivity].
  cbn [fst snd].
  destruct (flag_all (_drawList (window (update_window (set_needUpdate true) s)))
              (update_window (set_needUpdate true) s)) as [Hw Hst].
  split; [|split; [by rewrite Hw|split; [by rewrite Hw|exact Hst]]].
  destruct (available requestFullscreen) eqn:H1; [by eexists|].
  destruct (available mozRequestFullScreen) eqn:H2; [by eexists|].
  destruct (available webkitRequestFullscreen) eqn:H3; [by eexists|].
  destruct (available msRequestFullscreen) eqn:H4; [by eexists|].
  eexists. split; [reflexivity|]. by intros [].
Qed.

Lemma adjustScreenSize_flags_all_aux (available : FullscreenApi → bool) (s : Store) :
  let s' := (adjustScreenSize true available s).2 in
  _needUpdate (window s') = true ∧
  _drawList (window s') = _drawList (window s) ∧
  _flipCallback (window s') = _flipCallback (window s) ∧
  _color (window s') = _color (window s) ∧
  _msgToBeLogged (window s') = _msgToBeLogged (window s) ∧
  ∀ ref, stims s' !! ref =
           if bool_decide (ref ∈ _drawList (window s))
           then set_stim_needUpdate true <$> stims s !! ref
           else stims s !! ref.
Proof.
  cbv zeta. unfold adjustScreenSize. cbn [fst snd].
  destruct (flag_all (_drawList (window (update_window (set_needUpdate true) s)))
              (update_window (set_needUpdate true) s)) as [Hw Hst].
  rewrite Hw. repeat split. exact Hst.
Qed.

(** X27. Going full screen shows one frame late: with no flip
    callback registered and an update that lowers the flag, the tick
    that follows [adjustScreenSize] on a full-screen window makes its
    render call first, then sets the background colour once and
    updates every stimulus that the draw list names, each exactly
    once. *)
Theorem adjustScreenSize_then_render (logTime : Q)
    (available : FullscreenApi → bool) (s : Store) :
  lowers_flag stim_updateIfNeeded →
  _flipCallback (window s) = None →
  let tick := render stim_updateIfNeeded invoke logTime
                (adjustScreenSize true available s).2 in
  head (trace tick) = Some RendererRender ∧
  backgrounds_of (trace tick) = [_color (window s)] ∧
  NoDup (updates_of (trace tick)) ∧
  ∀ ref, ref ∈ updates_of (trace tick)
         ↔ ref ∈ _drawList (window s) ∧ is_Some (stims s !! ref).
Proof.
  intros Hlow Hnone. cbv zeta.
  pose proof (adjustScreenSize_flags_all_aux available s) as Haux.
  destruct Haux as (Hnu & Hdl & Hcb & Hcolor & Hlog & Hst).
  rewrite render_run. cbv zeta. rewrite Hcb, Hnone.
  set (s1 := update_window _ _).
  destruct (updates_of_log_events (Arg:=Arg) (Fn:=Fn) logTime
              (_msgToBeLogged (window (adjustScreenSize true available s).2)))
    as [Hlogs Hlogs'].
  destruct (_refresh_updates_once stim_updateIfNeeded s1 Hlow)
    as (Hnd & _ & Hmem & _ & Hbg).
  cbn [trace fst snd head].
  change (RendererRender :: GlReadPixels :: ?l)
    with ([RendererRender; GlReadPixels] ++ l).
  unfold updates_of, backgrounds_of in *. rewrite !omap_app, Hlogs, Hlogs'.
  cbn [omap list_omap app].
  split; [reflexivity|]. split; [|split; [exact Hnd|]].
  - rewrite Hbg. subst s1. cbn [update_window window clear_log bump_frameCount
                                _needUpdate _color]. by rewrite Hnu, Hcolor.
  - intros ref. rewrite Hmem. subst s1.
    cbn [update_window window clear_log bump_frameCount _drawList].
    rewrite Hdl. unfold flagged. cbn [update_window stims]. rewrite Hst.
    split.
    + intros [Hin Hf]. split; [done|].
      rewrite bool_decide_eq_true_2 in Hf by done.
      by destruct (stims s !! ref).
    + intros [Hin [stim Hstim]]. split; [done|].
      rewrite bool_decide_eq_true_2 by done. by rewrite Hstim.
Qed.

End Generic.

Lemma adjustScreenSize_then_render_two_stims :
  let tick := render apply_update no_effect 0
                (adjustScreenSize true webkit_only two_stims).2 in
  head (trace tick) = Some RendererRender ∧
  backgrounds_of (trace tick) = [_color (window two_stims)] ∧
  NoDup (updates_of (trace tick)) ∧
  ∀ ref, ref ∈ updates_of (trace tick)
         ↔ ref ∈ _drawList (window two_stims) ∧ is_Some (stims two_stims !! ref).
Proof.
  apply (adjustScreenSize_then_render apply_update no_effect 0 webkit_only two_stims).
  - intros stim. reflexivity.
  - reflexivity.
Defined.

(** The same tick, call by call: the WebKit entry point is requested,
    and the stimulus listed twice is updated once. *)
Example adjustScreenSize_two_stims :
  (adjustScreenSize true webkit_only two_stims).1 = [Request webkitRequestFullscreen] ∧
  trace (render apply_update no_effect 0
           (adjustScreenSize true webkit_only two_stims).2) =
    [ RendererRender; GlReadPixels; SetBackgroundColor 128;
      RemoveChild 7; StimUpdateIfNeeded 0; AddChild 7;
      RemoveChild 8; StimUpdateIfNeeded 1; AddChild 8 ].
Proof. vm_compute. auto. Qed.

End ScreenFacts.
